(** * Matchmaking and signalling relay of the video-chat server

    A shallow embedding of the Socket.IO server (the module that owns
    [connectedUsers], [waitingUsers], [activeRooms] and [findMatch]) and
    the properties of its pairing, relay and cleanup handlers.

    Conventions of the model.
    - A JavaScript [Map] and a [Set] iterate in insertion order, and the
      server depends on that order (the first waiting user is the one
      paired, the first room listing a socket is the one cleaned).  Both
      are therefore lists in insertion order: [JsMap] and [JsSet].
    - A handler is embedded as its body run from its first statement to
      its last with every database query resolved, and [step] runs one
      handler after the other.  The handlers of connection, find-match and
      disconnect are [async] in the source: at an [await] the other
      handlers run, and a query that rejects takes the handler to its
      [catch].  What the body does on the state it meets is stated over
      these definitions; the disconnect handler is also given cut at its
      [await]s ([on_disconnect_resume]).
    - [new Date()] and SQL [NOW()] are a millisecond count handed to the
      handler, [generateRoomId()] is the string handed to it.
    - A handler returns the new state and the list of events the server
      emitted while running, each with the socket it was emitted to. *)

From Stdlib Require Import List String ZArith Bool Lia.
Import ListNotations.
Local Open Scope string_scope.
Local Open Scope Z_scope.
Local Open Scope list_scope.

Set Implicit Arguments.

(** ** Identifiers *)

Definition SocketId := string.
Definition RoomId := string.
Definition UserId := Z.

(** JavaScript truthiness of a string: only the empty string is falsy. *)
Definition truthy (s : string) : bool :=
  match s with
  | EmptyString => false
  | String _ _ => true
  end.

(** ** JavaScript [Set] of strings, in insertion order *)

Module JsSet.

Definition t := list string.

Definition has (x : string) (s : t) : bool := existsb (String.eqb x) s.

Definition add (x : string) (s : t) : t := if has x s then s else s ++ [x].

Definition delete (x : string) (s : t) : t :=
    filter (fun y => negb (String.eqb y x)) s.

End JsSet.

(** ** JavaScript [Map] with string keys, in insertion order *)

Module JsMap.

Section WithValue.
Variable V : Type.

Definition t := list (string * V).

Fixpoint get (k : string) (m : t) : option V :=
      match m with
      | [] => None
      | (k', v) :: rest => if String.eqb k k' then Some v else get k rest
      end.

(** [set] keeps the position of a key that is already present. *)
Fixpoint set (k : string) (v : V) (m : t) : t :=
      match m with
      | [] => [(k, v)]
      | (k', v') :: rest =>
          if String.eqb k k' then (k', v) :: rest else (k', v') :: set k v rest
      end.

Definition delete (k : string) (m : t) : t :=
      filter (fun kv => negb (String.eqb (fst kv) k)) m.

Definition keys (m : t) : list string := map fst m.

End WithValue.

End JsMap.

(** ** The Socket.IO room adapter

    Library behaviour the server relies on, modelled from the Socket.IO
    documentation: a room is a named set of sockets; [socket.join] and
    [socket.leave] add and remove one socket; [socket.to(room).emit]
    reaches every socket joined to the room except the emitting one; a
    socket joins the room named by its own id when it connects and has
    left every room when its [disconnect] handlers run. *)

Module SocketIO.

(** Memberships [(room, socket)] in join order. *)
Definition Adapter := list (RoomId * SocketId).

Definition joined (sid : SocketId) (room : RoomId) (a : Adapter) : bool :=
    existsb (fun p => String.eqb (fst p) room && String.eqb (snd p) sid) a.

Definition join (sid : SocketId) (room : RoomId) (a : Adapter) : Adapter :=
    if joined sid room a then a else a ++ [(room, sid)].

Definition leave (sid : SocketId) (room : RoomId) (a : Adapter) : Adapter :=
    filter (fun p => negb (String.eqb (fst p) room && String.eqb (snd p) sid)) a.

Definition leaveAll (sid : SocketId) (a : Adapter) : Adapter :=
    filter (fun p => negb (String.eqb (snd p) sid)) a.

Definition members (room : RoomId) (a : Adapter) : list SocketId :=
    map snd (filter (fun p => String.eqb (fst p) room) a).

(** The recipients of [socket.to(room).emit(...)] sent by [sender]. *)
Definition to (sender : SocketId) (room : RoomId) (a : Adapter)
    : list SocketId :=
    filter (fun m => negb (String.eqb m sender)) (members room a).

End SocketIO.

(** ** Events emitted by the server *)

Definition Payload := string.

Inductive ServerEvent : Type :=
| Matched (roomId : RoomId) (partnerId : SocketId) (isInitiator : bool)
| WaitingForMatch
| AlreadyInRoom (roomId : RoomId)
| PartnerSkipped
| PartnerDisconnected
| WebrtcOffer (offer : Payload) (from : SocketId)
| WebrtcAnswer (answer : Payload) (from : SocketId)
| WebrtcIceCandidate (candidate : Payload) (from : SocketId)
| ChatMessage (message : string) (from : SocketId) (timestamp : Z)
| PartnerCameraToggle (isOn : bool) (from : SocketId)
| PartnerMicToggle (isOn : bool) (from : SocketId).

(** An emission: the receiving socket and the event. *)
Definition Emit := (SocketId * ServerEvent)%type.

(** ** Server state *)

(** The value stored in [activeRooms]. *)
Record Room : Type := mkRoom {
  users : list SocketId;
  createdAt : Z
}.

(** A row of the [user_sessions] table (the columns the server touches). *)
Record SessionRow : Type := mkSessionRow {
  row_user_id : UserId;
  row_socket_id : SocketId;
  row_room_id : option RoomId;
  row_connected_at : Z;
  row_disconnected_at : option Z;
  row_is_active : bool
}.

(** A connected socket as the handlers' closure sees it: [socket.id] and
    [socket.user.id]. *)
Record Socket : Type := mkSocket {
  sock_id : SocketId;
  sock_user : UserId
}.

(** [connectedUsers] maps a socket id to the socket object; the object
    is represented by its key together with its authenticated user. *)
Record State : Type := mkState {
  connectedUsers : JsMap.t UserId;
  waitingUsers : JsSet.t;
  activeRooms : JsMap.t Room;
  adapter : SocketIO.Adapter;
  user_sessions : list SessionRow
}.

Definition init : State := mkState [] [] [] [] [].

Definition with_connectedUsers (c : JsMap.t UserId) (st : State) : State :=
  mkState c (waitingUsers st) (activeRooms st) (adapter st) (user_sessions st).

Definition with_waitingUsers (w : JsSet.t) (st : State) : State :=
  mkState (connectedUsers st) w (activeRooms st) (adapter st) (user_sessions st).

Definition with_activeRooms (r : JsMap.t Room) (st : State) : State :=
  mkState (connectedUsers st) (waitingUsers st) r (adapter st) (user_sessions st).

Definition with_adapter (a : SocketIO.Adapter) (st : State) : State :=
  mkState (connectedUsers st) (waitingUsers st) (activeRooms st) a (user_sessions st).

Definition with_user_sessions (d : list SessionRow) (st : State) : State :=
  mkState (connectedUsers st) (waitingUsers st) (activeRooms st) (adapter st) d.

(** The in-memory bookkeeping, without the database table. *)
Definition memory (st : State) :=
  (connectedUsers st, waitingUsers st, activeRooms st, adapter st).

(** [room.users.includes(id)] *)
Definition includes (id : SocketId) (l : list SocketId) : bool :=
  existsb (String.eqb id) l.

(** [room.users.find((id) => id !== socket.id)] *)
Definition find_other (sid : SocketId) (l : list SocketId) : option SocketId :=
  find (fun id => negb (String.eqb id sid)) l.

(** ** [findMatch] *)

(** The body of [for (const waitingUserId of waitingUsers)]: [iter] is
    what is left of the iteration, [st] the state at loop entry (the loop
    returns as soon as it changes anything).  [None] is falling out of
    the loop. *)
Fixpoint findMatch_loop (userId : SocketId) (now : Z) (roomId : RoomId)
    (st : State) (iter : list SocketId) : option (State * list Emit) :=
  match iter with
  | [] => None
  | waitingUserId :: rest =>
      if negb (String.eqb waitingUserId userId) then
        match JsMap.get userId (connectedUsers st),
              JsMap.get waitingUserId (connectedUsers st) with
        | Some _, Some _ =>
            let st1 := with_waitingUsers
                         (JsSet.delete waitingUserId (waitingUsers st)) st in
            let st2 := with_adapter
                         (SocketIO.join waitingUserId roomId
                            (SocketIO.join userId roomId (adapter st1))) st1 in
            let st3 := with_activeRooms
                         (JsMap.set roomId (mkRoom [userId; waitingUserId] now)
                            (activeRooms st2)) st2 in
            Some (st3, [(userId, Matched roomId waitingUserId true);
                        (waitingUserId, Matched roomId userId false)])
        | _, _ => findMatch_loop userId now roomId st rest
        end
      else findMatch_loop userId now roomId st rest
  end.

(** [findMatch(userId)]; [roomId] is what [generateRoomId()] returns in
    the iteration that pairs. *)
Definition findMatch (userId : SocketId) (now : Z) (roomId : RoomId)
    (st : State) : State * list Emit * bool :=
  let st0 := with_waitingUsers (JsSet.delete userId (waitingUsers st)) st in
  match findMatch_loop userId now roomId st0 (waitingUsers st0) with
  | Some (st', out) => (st', out, true)
  | None =>
      (with_waitingUsers (JsSet.add userId (waitingUsers st0)) st0, [], false)
  end.

(** ** The handlers registered in [io.on("connection", ...)] *)

(** The connection callback: [connectedUsers.set(socket.id, socket)] and
    the [INSERT INTO user_sessions (user_id, socket_id, connected_at)];
    the other columns take their defaults ([room_id] is [NULL]).  The
    source awaits the [INSERT] after the [set] and only logs when it
    rejects (lines 230-237), and it registers the listeners of the socket
    after that [await]: this is the callback with the [INSERT] resolved. *)
Definition on_connection (socket : Socket) (now : Z) (st : State) : State :=
  let st1 := with_connectedUsers
               (JsMap.set (sock_id socket) (sock_user socket) (connectedUsers st))
               st in
  with_user_sessions
    (user_sessions st1 ++
       [mkSessionRow (sock_user socket) (sock_id socket) None now None true])
    st1.

(** [SELECT room_id FROM user_sessions WHERE user_id = $1 AND
    is_active = true AND room_id IS NOT NULL]: the [room_id] of the rows
    that match, in table order. *)
Fixpoint select_existing_session (uid : UserId) (rows : list SessionRow)
  : list RoomId :=
  match rows with
  | [] => []
  | r :: rest =>
      match row_room_id r with
      | Some room =>
          if (row_user_id r =? uid) && row_is_active r
          then room :: select_existing_session uid rest
          else select_existing_session uid rest
      | None => select_existing_session uid rest
      end
  end.

(** [socket.on("find-match")] *)
Definition on_find_match (socket : Socket) (now : Z) (roomId : RoomId)
    (st : State) : State * list Emit :=
  match select_existing_session (sock_user socket) (user_sessions st) with
  | room :: _ => (st, [(sock_id socket, AlreadyInRoom room)])
  | [] =>
      let '(st', out, matched) := findMatch (sock_id socket) now roomId st in
      if matched then (st', out)
      else (st', out ++ [(sock_id socket, WaitingForMatch)])
  end.

(** [socket.to(room).emit(ev)] *)
Definition broadcast (socket : Socket) (room : RoomId) (ev : ServerEvent)
    (st : State) : list Emit :=
  map (fun m => (m, ev)) (SocketIO.to (sock_id socket) room (adapter st)).

(** [socket.on("webrtc-offer")] *)
Definition on_webrtc_offer (socket : Socket) (roomId : RoomId)
    (offer : Payload) (st : State) : State * list Emit :=
  (st, broadcast socket roomId (WebrtcOffer offer (sock_id socket)) st).

(** [socket.on("webrtc-answer")] *)
Definition on_webrtc_answer (socket : Socket) (roomId : RoomId)
    (answer : Payload) (st : State) : State * list Emit :=
  (st, broadcast socket roomId (WebrtcAnswer answer (sock_id socket)) st).

(** [socket.on("webrtc-ice-candidate")] *)
Definition on_webrtc_ice_candidate (socket : Socket) (roomId : RoomId)
    (candidate : Payload) (st : State) : State * list Emit :=
  (st, broadcast socket roomId
         (WebrtcIceCandidate candidate (sock_id socket)) st).

(** [socket.on("chat-message")] *)
Definition on_chat_message (socket : Socket) (roomId : RoomId)
    (message : string) (now : Z) (st : State) : State * list Emit :=
  (st, broadcast socket roomId (ChatMessage message (sock_id socket) now) st).

(** [socket.on("toggle-camera")] *)
Definition on_toggle_camera (socket : Socket) (roomId : RoomId)
    (isOn : bool) (st : State) : State * list Emit :=
  (st, broadcast socket roomId (PartnerCameraToggle isOn (sock_id socket)) st).

(** [socket.on("toggle-mic")] *)
Definition on_toggle_mic (socket : Socket) (roomId : RoomId)
    (isOn : bool) (st : State) : State * list Emit :=
  (st, broadcast socket roomId (PartnerMicToggle isOn (sock_id socket)) st).

(** [if (otherUserId) { const otherSocket = connectedUsers.get(otherUserId);
    if (otherSocket) { ... } }]: the other socket when all the tests pass. *)
Definition other_socket (sid : SocketId) (room : Room) (st : State)
  : option SocketId :=
  match find_other sid (users room) with
  | Some otherUserId =>
      if truthy otherUserId then
        match JsMap.get otherUserId (connectedUsers st) with
        | Some _ => Some otherUserId
        | None => None
        end
      else None
  | None => None
  end.

(** [socket.on("skip-user")] *)
Definition on_skip_user (socket : Socket) (roomId : RoomId) (now : Z)
    (newRoomId : RoomId) (st : State) : State * list Emit :=
  let sid := sock_id socket in
  let out1 := broadcast socket roomId PartnerSkipped st in
  let st1 := with_adapter (SocketIO.leave sid roomId (adapter st)) st in
  let st2 :=
    match JsMap.get roomId (activeRooms st1) with
    | Some room =>
        let st' :=
          match other_socket sid room st1 with
          | Some other =>
              with_adapter (SocketIO.leave other roomId (adapter st1)) st1
          | None => st1
          end in
        with_activeRooms (JsMap.delete roomId (activeRooms st')) st'
    | None => st1
    end in
  let '(st3, out2, matched) := findMatch sid now newRoomId st2 in
  if matched then (st3, out1 ++ out2)
  else (st3, out1 ++ out2 ++ [(sid, WaitingForMatch)]).

(** [UPDATE user_sessions SET disconnected_at = NOW(), is_active = false
    WHERE socket_id = $1] *)
Definition update_disconnected (sid : SocketId) (now : Z)
    (rows : list SessionRow) : list SessionRow :=
  map (fun r =>
         if String.eqb (row_socket_id r) sid
         then mkSessionRow (row_user_id r) (row_socket_id r) (row_room_id r)
                (row_connected_at r) (Some now) false
         else r) rows.

(** The loop over [activeRooms.entries()] of the disconnect handler; it
    stops ([break]) at the first room that lists the socket. *)
Fixpoint disconnect_loop (sid : SocketId) (st : State)
    (iter : list (RoomId * Room)) : State * list Emit :=
  match iter with
  | [] => (st, [])
  | (roomId, room) :: rest =>
      if includes sid (users room) then
        let '(st1, out) :=
          match other_socket sid room st with
          | Some other =>
              (with_adapter (SocketIO.leave other roomId (adapter st)) st,
               [(other, PartnerDisconnected)])
          | None => (st, [])
          end in
        (with_activeRooms (JsMap.delete roomId (activeRooms st1)) st1, out)
      else disconnect_loop sid st rest
  end.

(** [socket.on("disconnect")], run from its first statement to its last
    with its queries resolved.  The updates of [chat_rooms] and
    [room_participants] write tables the server never reads and are left
    out.  The source awaits the [UPDATE] of [user_sessions] before it
    touches [waitingUsers]; [on_disconnect_resume] below is the handler
    cut at its [await]s. *)
Definition on_disconnect (socket : Socket) (now : Z) (st : State)
  : State * list Emit :=
  let sid := sock_id socket in
  let st1 := with_user_sessions
               (update_disconnected sid now (user_sessions st)) st in
  let st2 := with_waitingUsers (JsSet.delete sid (waitingUsers st1)) st1 in
  let '(st3, out) := disconnect_loop sid st2 (activeRooms st2) in
  (with_connectedUsers (JsMap.delete sid (connectedUsers st3)) st3, out).

(** ** The periodic cleanup task *)

(** One hour, in milliseconds. *)
Definition ROOM_MAX_AGE : Z := 3600000.

(** The loop [for (const [roomId, room] of activeRooms.entries())] of the
    cleanup task: [stale] is its test [now - room.createdAt > 3600000],
    [sweep_visit] its body.  It deletes the entry it is visiting, so it
    runs over the entries present when it starts. *)
Definition stale (now : Z) (room : Room) : bool :=
  now - createdAt room >? ROOM_MAX_AGE.

Definition sweep_visit (now : Z) (acc : JsMap.t Room) (entry : RoomId * Room)
  : JsMap.t Room :=
  if stale now (snd entry) then JsMap.delete (fst entry) acc else acc.

Definition sweep_rooms (now : Z) (rooms : JsMap.t Room) : JsMap.t Room :=
  fold_left (sweep_visit now) rooms rooms.

(** [DELETE FROM user_sessions WHERE disconnected_at < NOW() - INTERVAL
    '24 hours'] *)
Definition delete_old_sessions (now : Z) (rows : list SessionRow)
  : list SessionRow :=
  filter (fun r =>
            match row_disconnected_at r with
            | Some d => negb (d <? now - 86400000)
            | None => true
            end) rows.

(** The [setInterval] callback. *)
Definition on_cleanup (now : Z) (st : State) : State :=
  let st1 := with_activeRooms (sweep_rooms now (activeRooms st)) st in
  with_user_sessions (delete_old_sessions now (user_sessions st1)) st1.

(** ** Client events and the transition system *)

(** The six relayed kinds, with what the client sends. *)
Inductive RelayKind : Type :=
| KOffer (offer : Payload)
| KAnswer (answer : Payload)
| KIceCandidate (candidate : Payload)
| KChatMessage (message : string)
| KCameraToggle (isOn : bool)
| KMicToggle (isOn : bool).

(** The handler of a relayed kind. *)
Definition relay (socket : Socket) (roomId : RoomId) (kind : RelayKind)
    (now : Z) (st : State) : State * list Emit :=
  match kind with
  | KOffer offer => on_webrtc_offer socket roomId offer st
  | KAnswer answer => on_webrtc_answer socket roomId answer st
  | KIceCandidate candidate => on_webrtc_ice_candidate socket roomId candidate st
  | KChatMessage message => on_chat_message socket roomId message now st
  | KCameraToggle isOn => on_toggle_camera socket roomId isOn st
  | KMicToggle isOn => on_toggle_mic socket roomId isOn st
  end.

(** The event a relayed kind is forwarded as. *)
Definition relayed_event (from : SocketId) (kind : RelayKind) (now : Z)
  : ServerEvent :=
  match kind with
  | KOffer offer => WebrtcOffer offer from
  | KAnswer answer => WebrtcAnswer answer from
  | KIceCandidate candidate => WebrtcIceCandidate candidate from
  | KChatMessage message => ChatMessage message from now
  | KCameraToggle isOn => PartnerCameraToggle isOn from
  | KMicToggle isOn => PartnerMicToggle isOn from
  end.

(** What reaches the server: a connection, a client event on a connected
    socket, a disconnection, or a tick of the cleanup timer. *)
Inductive Event : Type :=
| Connection (sid : SocketId) (uid : UserId) (now : Z)
| FindMatch (sid : SocketId) (now : Z) (newRoomId : RoomId)
| Relay (sid : SocketId) (roomId : RoomId) (kind : RelayKind) (now : Z)
| SkipUser (sid : SocketId) (roomId : RoomId) (now : Z) (newRoomId : RoomId)
| Disconnect (sid : SocketId) (now : Z)
| Cleanup (now : Z).

(** The socket an event comes from. *)
Definition event_socket (e : Event) : option SocketId :=
  match e with
  | Connection sid _ _ => Some sid
  | FindMatch sid _ _ => Some sid
  | Relay sid _ _ _ => Some sid
  | SkipUser sid _ _ _ => Some sid
  | Disconnect sid _ => Some sid
  | Cleanup _ => None
  end.

(** Some room of the registry lists [sid]. *)
Definition in_some_room (sid : SocketId) (rooms : JsMap.t Room) : bool :=
  existsb (fun entry => includes sid (users (snd entry))) rooms.

(** Socket.IO gives a connection an id that is not in use: [sid] occurs
    nowhere in the state. *)
Definition fresh_socket (sid : SocketId) (st : State) : bool :=
  negb (existsb (String.eqb sid) (JsMap.keys (connectedUsers st)))
  && negb (JsSet.has sid (waitingUsers st))
  && negb (in_some_room sid (activeRooms st))
  && negb (existsb (String.eqb sid) (JsMap.keys (activeRooms st)))
  && negb (existsb (fun p => String.eqb (fst p) sid || String.eqb (snd p) sid)
             (adapter st)).

(** [generateRoomId()] is taken to return an id that is not in use: no
    active room has it and no socket is joined to a room of that name. *)
Definition fresh_room (roomId : RoomId) (st : State) : bool :=
  negb (existsb (String.eqb roomId) (JsMap.keys (activeRooms st)))
  && negb (existsb (fun p => String.eqb (fst p) roomId) (adapter st)).

(** One transition: the handler of the event, run to its end on [st];
    [None] when the event cannot occur in [st] (an event on a socket that
    is not connected, an id that is not fresh).  A run of [step]s is a run
    of the server in which no event arrives while a handler waits for a
    query. *)
Definition step (e : Event) (st : State) : option (State * list Emit) :=
  match e with
  | Connection sid uid now =>
      if fresh_socket sid st then
        Some (on_connection (mkSocket sid uid) now
                (with_adapter (SocketIO.join sid sid (adapter st)) st), [])
      else None
  | FindMatch sid now newRoomId =>
      match JsMap.get sid (connectedUsers st) with
      | Some uid =>
          if fresh_room newRoomId st
          then Some (on_find_match (mkSocket sid uid) now newRoomId st)
          else None
      | None => None
      end
  | Relay sid roomId kind now =>
      match JsMap.get sid (connectedUsers st) with
      | Some uid => Some (relay (mkSocket sid uid) roomId kind now st)
      | None => None
      end
  | SkipUser sid roomId now newRoomId =>
      match JsMap.get sid (connectedUsers st) with
      | Some uid =>
          if fresh_room newRoomId st
          then Some (on_skip_user (mkSocket sid uid) roomId now newRoomId st)
          else None
      | None => None
      end
  | Disconnect sid now =>
      match JsMap.get sid (connectedUsers st) with
      | Some uid =>
          Some (on_disconnect (mkSocket sid uid) now
                  (with_adapter (SocketIO.leaveAll sid (adapter st)) st))
      | None => None
      end
  | Cleanup now => Some (on_cleanup now st, [])
  end.

(** A run of events, with everything the server emitted. *)
Fixpoint run (evs : list Event) (st : State) : option (State * list Emit) :=
  match evs with
  | [] => Some (st, [])
  | e :: rest =>
      match step e st with
      | Some (st1, out1) =>
          match run rest st1 with
          | Some (st2, out2) => Some (st2, out1 ++ out2)
          | None => None
          end
      | None => None
      end
  end.

(** The states the server is in after a run of [step]s. *)
Inductive reachable : State -> Prop :=
| reachable_init : reachable init
| reachable_step (e : Event) (st st' : State) (out : list Emit) :
    reachable st -> step e st = Some (st', out) -> reachable st'.

(** ** Vocabulary of the statements *)

(** The active rooms that list [sid]. *)
Definition rooms_of (sid : SocketId) (st : State) : list RoomId :=
  map fst (filter (fun entry => includes sid (users (snd entry)))
             (activeRooms st)).

(** The first room of the registry, in iteration order, that lists [sid]. *)
Definition first_room_of (sid : SocketId) (rooms : JsMap.t Room)
  : option (RoomId * Room) :=
  find (fun entry => includes sid (users (snd entry))) rooms.

(** The state [findMatch] leaves when it pairs the caller [userId] with
    the waiting [waitingUserId] (from the state in which the caller is
    already out of the waiting set). *)
Definition paired (userId waitingUserId : SocketId) (now : Z)
    (roomId : RoomId) (st : State) : State :=
  let st1 := with_waitingUsers
               (JsSet.delete waitingUserId (waitingUsers st)) st in
  let st2 := with_adapter
               (SocketIO.join waitingUserId roomId
                  (SocketIO.join userId roomId (adapter st1))) st1 in
  with_activeRooms
    (JsMap.set roomId (mkRoom [userId; waitingUserId] now) (activeRooms st2))
    st2.

(** The state at the entry of the loop of [findMatch]. *)
Definition unqueued (userId : SocketId) (st : State) : State :=
  with_waitingUsers (JsSet.delete userId (waitingUsers st)) st.

Definition is_partner_disconnected (e : Emit) : bool :=
  match snd e with
  | PartnerDisconnected => true
  | _ => false
  end.

(** The state in which [skip-user] calls [findMatch]: the sender has left
    the named room and, when the room is in the registry, it is deleted
    (and its other listed socket, when connected, has left it too). *)
Definition skip_cleanup (sid : SocketId) (roomId : RoomId) (st : State)
  : State :=
  let st1 := with_adapter (SocketIO.leave sid roomId (adapter st)) st in
  match JsMap.get roomId (activeRooms st1) with
  | Some room =>
      let st' :=
        match other_socket sid room st1 with
        | Some other =>
            with_adapter (SocketIO.leave other roomId (adapter st1)) st1
        | None => st1
        end in
      with_activeRooms (JsMap.delete roomId (activeRooms st')) st'
  | None => st1
  end.

(** No [matched] event of [out] goes to [sid] or names it as partner. *)
Definition never_matched (sid : SocketId) (out : list Emit) : Prop :=
  forall recipient roomId partner initiator,
    In (recipient, Matched roomId partner initiator) out ->
    recipient <> sid /\ partner <> sid.

(** What every reachable state satisfies. *)
Record invariant (st : State) : Prop := mkInvariant {
  (** a waiting socket is connected *)
  inv_waiting_connected :
    forall w, In w (waitingUsers st) ->
      JsMap.get w (connectedUsers st) <> None;
  (** the server never writes [room_id] *)
  inv_room_id_null :
    forall row, In row (user_sessions st) -> row_room_id row = None;
  (** [activeRooms] is a [Map] *)
  inv_rooms_keys : NoDup (JsMap.keys (activeRooms st));
  (** a socket is joined to a room at most once *)
  inv_adapter_nodup : NoDup (adapter st);
  (** a room lists two distinct sockets *)
  inv_room_pair :
    forall k room, In (k, room) (activeRooms st) ->
      exists a b, users room = [a; b] /\ a <> b;
  (** a connected member of an active room is joined to it *)
  inv_member_joined :
    forall k room u, In (k, room) (activeRooms st) -> In u (users room) ->
      JsMap.get u (connectedUsers st) <> None -> In (k, u) (adapter st);
  (** only members are joined to an active room *)
  inv_joined_member :
    forall k room u, In (k, room) (activeRooms st) ->
      In (k, u) (adapter st) -> In u (users room)
}.

(** ** The handlers between their [await]s

    The connection callback waits once, for its [INSERT] (line 231),
    after [connectedUsers.set] and before it registers the listeners of
    the socket.  The disconnect handler waits three times: for the
    [UPDATE] of [user_sessions] (350) before it touches [waitingUsers]
    (356), and, at the first room that lists the socket, for the
    [UPDATE]s of [chat_rooms] (362) and [room_participants] (363) before
    it notifies the partner and deletes the room.  While a handler waits,
    the other handlers run on the state it has left.  A query that
    rejects takes it to its [catch] (235, 388), which only logs. *)

(** The outcome of an awaited query. *)
Inductive QueryOutcome : Type :=
| Resolved
| Rejected.

(** The connection callback up to its [await]: the socket is in
    [connectedUsers], and no listener of the socket is registered yet. *)
Definition on_connection_start (socket : Socket) (st : State) : State :=
  with_connectedUsers
    (JsMap.set (sock_id socket) (sock_user socket) (connectedUsers st)) st.

(** The connection callback after its [await]: the row is in
    [user_sessions] when the [INSERT] resolved; when it rejected, the
    [catch] logs and the socket is served without a row. *)
Definition on_connection_resume (socket : Socket) (now : Z)
    (outcome : QueryOutcome) (st : State) : State :=
  match outcome with
  | Resolved =>
      with_user_sessions
        (user_sessions st ++
           [mkSessionRow (sock_user socket) (sock_id socket) None now None true])
        st
  | Rejected => st
  end.

(** The query the disconnect handler waits for: the [UPDATE] of the
    session, or one of the two of the loop, with the entry the loop is
    at. *)
Inductive DisconnectAwait : Type :=
| AwaitSession
| AwaitChatRoom (roomId : RoomId) (room : Room)
| AwaitParticipant (roomId : RoomId) (room : Room).

(** The state in which the disconnect handler waits for its first query:
    Socket.IO has taken the closed socket out of its rooms and the
    handler has changed nothing. *)
Definition on_disconnect_start (socket : Socket) (st : State) : State :=
  with_adapter (SocketIO.leaveAll (sock_id socket) (adapter st)) st.

(** The disconnect handler from the query it waits for to the next one
    ([Some]) or to its end ([None]), on the state it finds when the query
    settles. *)
Definition on_disconnect_resume (socket : Socket) (now : Z)
    (point : DisconnectAwait) (outcome : QueryOutcome) (st : State)
  : State * list Emit * option DisconnectAwait :=
  let sid := sock_id socket in
  match outcome with
  | Rejected => (st, [], None)
  | Resolved =>
      match point with
      | AwaitSession =>
          let st1 := with_user_sessions
                       (update_disconnected sid now (user_sessions st)) st in
          let st2 := with_waitingUsers
                       (JsSet.delete sid (waitingUsers st1)) st1 in
          match first_room_of sid (activeRooms st2) with
          | Some (roomId, room) => (st2, [], Some (AwaitChatRoom roomId room))
          | None =>
              (with_connectedUsers (JsMap.delete sid (connectedUsers st2)) st2,
               [], None)
          end
      | AwaitChatRoom roomId room =>
          (st, [], Some (AwaitParticipant roomId room))
      | AwaitParticipant roomId room =>
          let '(st1, out) :=
            match other_socket sid room st with
            | Some other =>
                (with_adapter (SocketIO.leave other roomId (adapter st)) st,
                 [(other, PartnerDisconnected)])
            | None => (st, [])
            end in
          let st2 := with_activeRooms
                       (JsMap.delete roomId (activeRooms st1)) st1 in
          (with_connectedUsers (JsMap.delete sid (connectedUsers st2)) st2,
           out, None)
      end
  end.

(** The disconnect handler with every query resolved and no other handler
    run while it waits. *)
Definition on_disconnect_resolved (socket : Socket) (now : Z) (st : State)
  : State * list Emit :=
  let '(st1, out1, next1) :=
    on_disconnect_resume socket now AwaitSession Resolved st in
  match next1 with
  | None => (st1, out1)
  | Some point2 =>
      let '(st2, out2, next2) :=
        on_disconnect_resume socket now point2 Resolved st1 in
      match next2 with
      | None => (st2, out1 ++ out2)
      | Some point3 =>
          let '(st3, out3, _) :=
            on_disconnect_resume socket now point3 Resolved st2 in
          (st3, out1 ++ out2 ++ out3)
      end
  end.

(** ** Scenarios *)

(** Two connections, one of them waiting. *)
Definition lobby : list Event :=
  [ Connection "A" 1 0; Connection "B" 2 0; FindMatch "B" 10 "r0" ].

Definition lobby_state : State :=
  match run lobby init with
  | Some (st, _) => st
  | None => init
  end.

(** Three connections; [A] and [B] are paired in [r1], [C] waits. *)
Definition scenario : list Event :=
  [ Connection "A" 1 0; Connection "B" 2 0; Connection "C" 3 0;
    FindMatch "B" 10 "r0";
    FindMatch "A" 20 "r1";
    FindMatch "C" 30 "r2" ].

Definition scenario_state : State :=
  match run scenario init with
  | Some (st, _) => st
  | None => init
  end.

(** The scenario followed by a second find-match of [A], who is by then
    paired with [B] in room [r1]. *)
Definition scenario_rematch : list Event :=
  scenario ++ [FindMatch "A" 40 "r3"].

Definition scenario_rematch_state : State :=
  match run scenario_rematch init with
  | Some (st, _) => st
  | None => init
  end.

(** The lobby after the find-match of [A]: [A] and [B] are paired. *)
Definition lobby_paired_state : State :=
  fst (on_find_match (mkSocket "A" 1) 20 "r1" lobby_state).



(** [C] waits and [D] is connected. *)
Definition scenario_queue : list Event :=
  [ Connection "C" 3 0; Connection "D" 4 0; FindMatch "C" 10 "r0" ].

Definition scenario_queue_state : State :=
  match run scenario_queue init with
  | Some (st, _) => st
  | None => init
  end.

(** * The refresh-token store and the authentication routes

    [utils/auth.js] and [routes/auth.js].  The tables are lists of rows
    in insertion order, with the columns the code reads or writes.  A
    statement fails only by violating the [UNIQUE] constraint that
    [schema.sql] puts on [refresh_tokens.token]; a failure is [None], the
    exception of the source.  Column widths are not modelled.  [NOW()] and
    [Date.now()] are the millisecond count handed to the function. *)

(** ** [utils/auth.js]: the [refresh_tokens] table *)

Record RefreshTokenRow : Type := mkRefreshTokenRow {
  rt_user_id : UserId;
  rt_token : string;
  rt_expires_at : Z;
  rt_is_revoked : bool
}.

Definition RefreshTokens := list RefreshTokenRow.

(** Seven days, in milliseconds. *)
Definition REFRESH_TOKEN_LIFETIME : Z := 7 * 24 * 60 * 60 * 1000.

(** Some row holds [token]. *)
Definition token_stored (token : string) (tbl : RefreshTokens) : bool :=
  existsb (fun r => String.eqb (rt_token r) token) tbl.

(** [saveRefreshToken(userId, token)]: the [INSERT], refused when the
    token is already stored.  (The column is [VARCHAR(255)]; the refusal
    of a longer token is not modelled.) *)
Definition saveRefreshToken (userId : UserId) (token : string) (now : Z)
    (tbl : RefreshTokens) : option RefreshTokens :=
  let expiresAt := now + REFRESH_TOKEN_LIFETIME in
  if token_stored token tbl then None
  else Some (tbl ++ [mkRefreshTokenRow userId token expiresAt false]).

(** [revokeRefreshToken(token)] *)
Definition revokeRefreshToken (token : string) (tbl : RefreshTokens)
  : RefreshTokens :=
  map (fun r =>
         if String.eqb (rt_token r) token
         then mkRefreshTokenRow (rt_user_id r) (rt_token r) (rt_expires_at r) true
         else r) tbl.

(** [revokeAllUserTokens(userId)] *)
Definition revokeAllUserTokens (userId : UserId) (tbl : RefreshTokens)
  : RefreshTokens :=
  map (fun r =>
         if rt_user_id r =? userId
         then mkRefreshTokenRow (rt_user_id r) (rt_token r) (rt_expires_at r) true
         else r) tbl.

(** [isRefreshTokenValid(token)]: some row has the token, is not revoked
    and expires after [NOW()]. *)
Definition isRefreshTokenValid (token : string) (now : Z)
    (tbl : RefreshTokens) : bool :=
  let rows :=
    filter (fun r => String.eqb (rt_token r) token
                     && negb (rt_is_revoked r)
                     && (rt_expires_at r >? now)) tbl in
  (0 <? Z.of_nat (List.length rows)).

(** [cleanupExpiredTokens()]: [DELETE ... WHERE expires_at < NOW() OR
    is_revoked = true]. *)
Definition cleanupExpiredTokens (now : Z) (tbl : RefreshTokens)
  : RefreshTokens :=
  filter (fun r => negb ((rt_expires_at r <? now) || rt_is_revoked r)) tbl.

(** The functions of [bcryptjs] and [jsonwebtoken] the code calls.
    [hashPassword] takes the salt bcrypt draws; the token functions take
    the clock they read; [verifyRefreshToken] returns the [userId] of the
    decoded payload, [None] when it throws. *)
Class Crypto : Type := {
  hashPassword : string -> string -> string;
  comparePassword : string -> string -> bool;
  generateAccessToken : UserId -> string -> Z -> string;
  generateRefreshToken : UserId -> string -> Z -> string;
  verifyRefreshToken : string -> Z -> option UserId
}.

Record Tokens : Type := mkTokens {
  accessToken : string;
  refreshToken : string
}.

(** [generateTokenPair(userId, email)] *)
Definition generateTokenPair `{Crypto} (userId : UserId) (email : string)
    (now : Z) (tbl : RefreshTokens) : option (Tokens * RefreshTokens) :=
  let access := generateAccessToken userId email now in
  let refresh := generateRefreshToken userId email now in
  match saveRefreshToken userId refresh now tbl with
  | Some tbl' => Some (mkTokens access refresh, tbl')
  | None => None
  end.

(** ** [routes/auth.js] *)

(** A row of [users]. *)
Record UserRow : Type := mkUserRow {
  user_id : UserId;
  user_email : string;
  user_password_hash : string;
  user_username : option string;
  user_created_at : Z;
  user_updated_at : Z;
  user_last_login : option Z;
  user_is_active : bool
}.

(** The two tables of the routes and the sequence behind [users.id]. *)
Record AuthDb : Type := mkAuthDb {
  db_users : list UserRow;
  db_next_user_id : UserId;
  db_refresh_tokens : RefreshTokens
}.

Definition with_refresh_tokens (tbl : RefreshTokens) (db : AuthDb) : AuthDb :=
  mkAuthDb (db_users db) (db_next_user_id db) tbl.

(** The JSON bodies the routes send. *)
Inductive Body : Type :=
| ErrorBody (error : string)
| MessageBody (message : string)
| UserBody (message : string) (id : UserId) (email : string)
    (username : option string) (tokens : Tokens)
| TokensBody (tokens : Tokens).

(** [res.status(...).json(...)] *)
Definition Response := (Z * Body)%type.

(** SQL [username = $2]: not true when either side is [NULL]. *)
Definition username_is (username : option string) (u : UserRow) : bool :=
  match username, user_username u with
  | Some wanted, Some stored => String.eqb stored wanted
  | _, _ => false
  end.

(** [router.post("/register")], after its validation middleware. *)
Definition register `{Crypto} (email password : string)
    (username : option string) (salt : string) (now : Z) (db : AuthDb)
  : Response * AuthDb :=
  let existingUser :=
    filter (fun u => String.eqb (user_email u) email || username_is username u)
      (db_users db) in
  match existingUser with
  | _ :: _ =>
      ((409, ErrorBody "User with this email or username already exists"), db)
  | [] =>
      let passwordHash := hashPassword salt password in
      let user := mkUserRow (db_next_user_id db) email passwordHash username
                    now now None true in
      let db1 := mkAuthDb (db_users db ++ [user]) (db_next_user_id db + 1)
                   (db_refresh_tokens db) in
      match generateTokenPair (user_id user) (user_email user) now
              (db_refresh_tokens db1) with
      | Some (tokens, tbl) =>
          ((201, UserBody "User registered successfully" (user_id user)
                   (user_email user) (user_username user) tokens),
           with_refresh_tokens tbl db1)
      | None => ((500, ErrorBody "Internal server error"), db1)
      end
  end.

(** [UPDATE users SET last_login = NOW() WHERE id = $1]; the trigger of
    [schema.sql] sets [updated_at] on every update. *)
Definition update_last_login (id : UserId) (now : Z) (users : list UserRow)
  : list UserRow :=
  map (fun u =>
         if user_id u =? id
         then mkUserRow (user_id u) (user_email u) (user_password_hash u)
                (user_username u) (user_created_at u) now (Some now)
                (user_is_active u)
         else u) users.

(** [router.post("/login")], after its validation middleware. *)
Definition login `{Crypto} (email password : string) (now : Z) (db : AuthDb)
  : Response * AuthDb :=
  match filter (fun u => String.eqb (user_email u) email) (db_users db) with
  | [] => ((401, ErrorBody "Invalid email or password"), db)
  | user :: _ =>
      if negb (user_is_active user) then
        ((401, ErrorBody "Account is deactivated"), db)
      else if negb (comparePassword password (user_password_hash user)) then
        ((401, ErrorBody "Invalid email or password"), db)
      else
        let db1 := mkAuthDb (update_last_login (user_id user) now (db_users db))
                     (db_next_user_id db) (db_refresh_tokens db) in
        match generateTokenPair (user_id user) (user_email user) now
                (db_refresh_tokens db1) with
        | Some (tokens, tbl) =>
            ((200, UserBody "Login successful" (user_id user)
                     (user_email user) (user_username user) tokens),
             with_refresh_tokens tbl db1)
        | None => ((500, ErrorBody "Internal server error"), db1)
        end
  end.

(** [router.post("/refresh")]; [token] is [req.body.refreshToken], [None]
    when the body has none. *)
Definition refresh `{Crypto} (token : option string) (now : Z) (db : AuthDb)
  : Response * AuthDb :=
  match token with
  | None => ((401, ErrorBody "Refresh token required"), db)
  | Some tok =>
      if negb (truthy tok) then
        ((401, ErrorBody "Refresh token required"), db)
      else
        match verifyRefreshToken tok now with
        | None => ((401, ErrorBody "Invalid refresh token"), db)
        | Some userId =>
            if negb (isRefreshTokenValid tok now (db_refresh_tokens db)) then
              ((401, ErrorBody "Invalid or expired refresh token"), db)
            else
              match filter (fun u => user_id u =? userId) (db_users db) with
              | [] => ((401, ErrorBody "User not found or inactive"), db)
              | user :: _ =>
                  if negb (user_is_active user) then
                    ((401, ErrorBody "User not found or inactive"), db)
                  else
                    let db1 := with_refresh_tokens
                                 (revokeRefreshToken tok (db_refresh_tokens db))
                                 db in
                    match generateTokenPair (user_id user) (user_email user)
                            now (db_refresh_tokens db1) with
                    | Some (tokens, tbl) =>
                        ((200, TokensBody tokens), with_refresh_tokens tbl db1)
                    | None =>
                        ((401, ErrorBody "Invalid refresh token"), db1)
                    end
              end
        end
  end.

(** [router.post("/logout")], after [authenticateToken]. *)
Definition logout (token : option string) (db : AuthDb) : Response * AuthDb :=
  let db1 :=
    match token with
    | Some tok =>
        if truthy tok
        then with_refresh_tokens
               (revokeRefreshToken tok (db_refresh_tokens db)) db
        else db
    | None => db
    end in
  ((200, MessageBody "Logout successful"), db1).

(** [router.post("/logout-all")], after [authenticateToken] set
    [req.user]. *)
Definition logout_all (userId : UserId) (db : AuthDb) : Response * AuthDb :=
  ((200, MessageBody "Logged out from all devices"),
   with_refresh_tokens (revokeAllUserTokens userId (db_refresh_tokens db)) db).

(** A stand-in for the two libraries, for examples: the hash is the salt
    followed by the password, a token spells out what it was signed for. *)
Definition toy_hash (salt password : string) : string :=
  String.append salt password.

Definition toy_crypto : Crypto :=
  Build_Crypto
    toy_hash
    (fun password hash =>
       String.eqb (String.substring 1 (String.length password) hash) password)
    (fun _ email _ => String.append "access:" email)
    (fun _ email now =>
       String.append "refresh:"
         (String.append email (if now <? 1000 then ":0" else ":1")))
    (fun token _ => if String.eqb token "refresh:a@b.c:0" then Some 1 else None).

Definition auth_empty : AuthDb := mkAuthDb [] 1 [].

(** The database after [a@b.c] registered at time 0. *)
Definition auth_registered : AuthDb :=
  snd (@register toy_crypto "a@b.c" "Secret1!" None "s" 0 auth_empty).

(** The database after the refresh token of that registration was used
    at time 1500. *)
Definition auth_refreshed : AuthDb :=
  snd (@refresh toy_crypto (Some "refresh:a@b.c:0") 1500 auth_registered).

(** * Properties *)

(** ** Containers *)

(** Reduce the projections of an updated state, and nothing else. *)
Ltac state_simpl :=
  cbv zeta;
  cbn [connectedUsers waitingUsers activeRooms adapter user_sessions
       with_connectedUsers with_waitingUsers with_activeRooms with_adapter
       with_user_sessions fst snd].

Ltac eqb_case x y :=
  let E := fresh "E" in
  destruct (String.eqb_spec x y) as [E | E]; [try subst | idtac].

Module JsSetFacts.

Lemma has_In (x : string) (s : JsSet.t) : JsSet.has x s = true <-> In x s.
  Proof.
    unfold JsSet.has. rewrite existsb_exists. split.
    - intros [y [Hy E]]. apply String.eqb_eq in E. now subst.
    - intros H. exists x. split; [assumption | apply String.eqb_refl].
  Qed.

Lemma has_false (x : string) (s : JsSet.t) :
    JsSet.has x s = false <-> ~ In x s.
  Proof.
    rewrite <- has_In. destruct (JsSet.has x s); split; congruence.
  Qed.

Lemma In_remove (x y : string) (s : JsSet.t) :
    In y (JsSet.delete x s) <-> In y s /\ y <> x.
  Proof.
    unfold JsSet.delete. rewrite filter_In.
    eqb_case y x; simpl; intuition congruence.
  Qed.

Lemma In_add (x y : string) (s : JsSet.t) :
    In y (JsSet.add x s) <-> In y s \/ y = x.
  Proof.
    unfold JsSet.add. destruct (JsSet.has x s) eqn:H.
    - apply has_In in H. split; [tauto | intros [? | ?]; subst; assumption].
    - rewrite in_app_iff. simpl. intuition.
  Qed.

Lemma remove_absent (x : string) (s : JsSet.t) :
    ~ In x s -> JsSet.delete x s = s.
  Proof.
    intros H. unfold JsSet.delete. induction s as [| y s IH]; simpl; [reflexivity|].
    eqb_case y x; simpl.
    - exfalso. apply H. now left.
    - f_equal. apply IH. intros ?. apply H. now right.
  Qed.

Lemma NoDup_remove (x : string) (s : JsSet.t) :
    NoDup s -> NoDup (JsSet.delete x s).
  Proof. apply NoDup_filter. Qed.

Lemma NoDup_add (x : string) (s : JsSet.t) :
    NoDup s -> NoDup (JsSet.add x s).
  Proof.
    intros H. unfold JsSet.add. destruct (JsSet.has x s) eqn:E; [assumption|].
    apply has_false in E.
    apply NoDup_app; [assumption | constructor; [simpl; tauto | constructor] |].
    intros y Hy [<- | []]. contradiction.
  Qed.

End JsSetFacts.

Module JsMapFacts.

Section WithValue.
Variable V : Type.
Implicit Types (m : JsMap.t V) (k : string) (v : V).

Lemma get_In k v m : JsMap.get k m = Some v -> In (k, v) m.
    Proof.
      induction m as [| [k' v'] m IH]; simpl; [discriminate|].
      eqb_case k k'.
      - intros [= ->]. now left.
      - intros H. right. now apply IH.
    Qed.

Lemma get_None k m : JsMap.get k m = None <-> ~ In k (JsMap.keys m).
    Proof.
      induction m as [| [k' v'] m IH]; simpl; [tauto|].
      eqb_case k k'.
      - split; [discriminate | intros H; exfalso; apply H; now left].
      - rewrite IH. intuition congruence.
    Qed.

Lemma In_keys k v m : In (k, v) m -> In k (JsMap.keys m).
    Proof. intros H. apply (in_map fst) in H. exact H. Qed.

Lemma In_get k v m : NoDup (JsMap.keys m) -> In (k, v) m -> JsMap.get k m = Some v.
    Proof.
      induction m as [| [k' v'] m IH]; simpl; [tauto|].
      intros Hnd [[= -> ->] | H].
      - now rewrite String.eqb_refl.
      - inversion Hnd as [| ? ? Hk Hnd']; subst.
        eqb_case k k'.
        + exfalso. apply Hk. eapply In_keys; eassumption.
        + now apply IH.
    Qed.

Lemma In_delete k k' v m :
      In (k', v) (JsMap.delete k m) <-> In (k', v) m /\ k' <> k.
    Proof.
      unfold JsMap.delete. rewrite filter_In. simpl.
      eqb_case k' k; simpl; intuition congruence.
    Qed.

Lemma keys_delete k m :
      JsMap.keys (JsMap.delete k m)
      = filter (fun k' => negb (String.eqb k' k)) (JsMap.keys m).
    Proof.
      unfold JsMap.keys, JsMap.delete.
      induction m as [| [k' v'] m IH]; simpl; [reflexivity|].
      destruct (negb (String.eqb k' k)); simpl; now rewrite IH.
    Qed.

Lemma In_keys_delete k k' m :
      In k' (JsMap.keys (JsMap.delete k m)) <-> In k' (JsMap.keys m) /\ k' <> k.
    Proof.
      rewrite keys_delete, filter_In.
      eqb_case k' k; simpl; intuition congruence.
    Qed.

Lemma NoDup_delete k m :
      NoDup (JsMap.keys m) -> NoDup (JsMap.keys (JsMap.delete k m)).
    Proof. rewrite keys_delete. apply NoDup_filter. Qed.

Lemma get_delete_same k m : JsMap.get k (JsMap.delete k m) = None.
    Proof. apply get_None. rewrite In_keys_delete. tauto. Qed.

Lemma get_delete_other k k' m :
      k' <> k -> JsMap.get k' (JsMap.delete k m) = JsMap.get k' m.
    Proof.
      intros Hne. unfold JsMap.delete.
      induction m as [| [k0 v0] m IH]; simpl; [reflexivity|].
      eqb_case k0 k; simpl.
      - rewrite IH. eqb_case k' k; [contradiction | reflexivity].
      - now rewrite IH.
    Qed.

Lemma delete_absent k m :
      JsMap.get k m = None -> JsMap.delete k m = m.
    Proof.
      unfold JsMap.delete.
      induction m as [| [k' v'] m IH]; simpl; [reflexivity|].
      eqb_case k k'; [discriminate|].
      intros H. rewrite (proj2 (String.eqb_neq k' k)) by congruence.
      simpl. f_equal. now apply IH.
    Qed.

Lemma get_set_same k v m : JsMap.get k (JsMap.set k v m) = Some v.
    Proof.
      induction m as [| [k' v'] m IH]; simpl.
      - now rewrite String.eqb_refl.
      - eqb_case k k'; simpl.
        + now rewrite String.eqb_refl.
        + rewrite (proj2 (String.eqb_neq k k')) by assumption. exact IH.
    Qed.

Lemma get_set_other k k' v m :
      k' <> k -> JsMap.get k' (JsMap.set k v m) = JsMap.get k' m.
    Proof.
      intros Hne. induction m as [| [k0 v0] m IH]; simpl.
      - now rewrite (proj2 (String.eqb_neq k' k)).
      - eqb_case k k0; simpl.
        + now rewrite (proj2 (String.eqb_neq k' k0)).
        + now rewrite IH.
    Qed.

Lemma set_absent k v m :
      JsMap.get k m = None -> JsMap.set k v m = m ++ [(k, v)].
    Proof.
      induction m as [| [k' v'] m IH]; simpl; [reflexivity|].
      eqb_case k k'; [discriminate|].
      intros H. now rewrite IH.
    Qed.

Lemma In_keys_set k k' v m :
      In k' (JsMap.keys (JsMap.set k v m)) <-> In k' (JsMap.keys m) \/ k' = k.
    Proof.
      induction m as [| [k0 v0] m IH]; simpl.
      - intuition.
      - eqb_case k k0; simpl.
        + intuition.
        + rewrite IH. intuition.
    Qed.

Lemma NoDup_set k v m :
      NoDup (JsMap.keys m) -> NoDup (JsMap.keys (JsMap.set k v m)).
    Proof.
      induction m as [| [k0 v0] m IH]; simpl.
      - intros _. constructor; [simpl; tauto | constructor].
      - intros Hnd. inversion Hnd as [| ? ? Hk Hnd']; subst.
        eqb_case k k0; simpl.
        + constructor; assumption.
        + constructor; [| now apply IH].
          intros Hin. apply In_keys_set in Hin. destruct Hin; [contradiction|congruence].
    Qed.

Lemma In_set k k' v v' m :
      In (k', v') (JsMap.set k v m) -> (k' = k /\ v' = v) \/ In (k', v') m.
    Proof.
      induction m as [| [k0 v0] m IH]; simpl.
      - intros [[= <- <-] | []]. now left.
      - eqb_case k k0; simpl.
        + intros [[= <- <-] | H]; [now left | right; now right].
        + intros [H | H]; [right; now left |].
          destruct (IH H) as [? | ?]; [now left | right; now right].
    Qed.

End WithValue.

End JsMapFacts.

(** ** Pairing *)

Section FindMatch.

Variables (userId : SocketId) (now : Z) (roomId : RoomId).

Lemma findMatch_loop_Some (st : State) (iter : list SocketId)
      (st' : State) (out : list Emit) :
    findMatch_loop userId now roomId st iter = Some (st', out) ->
    exists w,
      In w iter /\ w <> userId /\
      JsMap.get userId (connectedUsers st) <> None /\
      JsMap.get w (connectedUsers st) <> None /\
      st' = paired userId w now roomId st /\
      out = [(userId, Matched roomId w true); (w, Matched roomId userId false)].
  Proof.
    induction iter as [| w rest IH]; simpl; [discriminate|].
    eqb_case w userId; simpl.
    - intros H. destruct (IH H) as [w' [? ?]]. exists w'. intuition.
    - destruct (JsMap.get userId (connectedUsers st)) eqn:Hu;
        [destruct (JsMap.get w (connectedUsers st)) eqn:Hw |].
      + intros [= <- <-]. exists w. rewrite Hw.
        repeat split; try congruence. now left.
      + intros H. destruct (IH H) as [w' [? ?]]. exists w'. intuition.
      + intros H. destruct (IH H) as [w' [? ?]]. exists w'. intuition.
  Qed.

Lemma findMatch_loop_None (st : State) (iter : list SocketId) :
    findMatch_loop userId now roomId st iter = None ->
    forall w, In w iter -> w <> userId ->
      JsMap.get userId (connectedUsers st) = None \/
      JsMap.get w (connectedUsers st) = None.
  Proof.
    induction iter as [| w0 rest IH]; simpl; [tauto|].
    eqb_case w0 userId; simpl.
    - intros H w [<- | Hin] Hne; [congruence | now apply IH].
    - destruct (JsMap.get userId (connectedUsers st)) eqn:Hu;
        [destruct (JsMap.get w0 (connectedUsers st)) eqn:Hw |].
      + discriminate.
      + intros H w [<- | Hin] Hne; [now right | now apply IH].
      + intros _ w _ _. now left.
  Qed.

(** What a call of [findMatch] that pairs does. *)
Lemma findMatch_true (st st' : State) (out : list Emit) :
    findMatch userId now roomId st = (st', out, true) ->
    exists w,
      In w (waitingUsers st) /\ w <> userId /\
      JsMap.get userId (connectedUsers st) <> None /\
      JsMap.get w (connectedUsers st) <> None /\
      st' = paired userId w now roomId (unqueued userId st) /\
      out = [(userId, Matched roomId w true); (w, Matched roomId userId false)].
  Proof.
    unfold findMatch. fold (unqueued userId st).
    destruct (findMatch_loop userId now roomId (unqueued userId st)
                (waitingUsers (unqueued userId st))) as [[s o] |] eqn:L;
      [| discriminate].
    intros [= <- <-].
    destruct (findMatch_loop_Some _ _ L) as [w (Hin & Hne & Hu & Hw & -> & ->)].
    exists w. simpl in Hin. apply JsSetFacts.In_remove in Hin.
    repeat split; tauto.
  Qed.

(** What a call of [findMatch] that does not pair does. *)
Lemma findMatch_false (st st' : State) (out : list Emit) :
    findMatch userId now roomId st = (st', out, false) ->
    st' = with_waitingUsers
            (JsSet.add userId (JsSet.delete userId (waitingUsers st))) st /\
    out = [] /\
    forall w, In w (waitingUsers st) -> w <> userId ->
      JsMap.get userId (connectedUsers st) = None \/
      JsMap.get w (connectedUsers st) = None.
  Proof.
    unfold findMatch. fold (unqueued userId st).
    destruct (findMatch_loop userId now roomId (unqueued userId st)
                (waitingUsers (unqueued userId st))) as [[s o] |] eqn:L;
      [discriminate|].
    intros [= <- <-]. repeat split.
    intros w Hin Hne.
    apply (findMatch_loop_None _ _ L); [| assumption].
    simpl. apply JsSetFacts.In_remove. tauto.
  Qed.

End FindMatch.

(** C4.  Whenever [findMatch] pairs two sessions, the caller (whose
    find-match triggered the pairing) is told [isInitiator: true], the
    session taken from the waiting set is told [isInitiator: false], these
    are the only two events emitted, and the new room lists exactly the
    two of them; when it does not pair it emits nothing.  The flags are a
    function of who called, not of the state. *)
Theorem findMatch_initiator_rule (userId : SocketId) (now : Z)
    (roomId : RoomId) (st st' : State) (out : list Emit) (matched : bool) :
  findMatch userId now roomId st = (st', out, matched) ->
  if matched then
    exists waitingUserId,
      In waitingUserId (waitingUsers st) /\
      waitingUserId <> userId /\
      out = [(userId, Matched roomId waitingUserId true);
             (waitingUserId, Matched roomId userId false)] /\
      JsMap.get roomId (activeRooms st')
      = Some (mkRoom [userId; waitingUserId] now)
  else out = [].
Proof.
  destruct matched; intros H.
  - apply findMatch_true in H.
    destruct H as [w (Hin & Hne & _ & _ & -> & ->)].
    exists w. repeat split; try assumption.
    simpl. apply JsMapFacts.get_set_same.
  - apply findMatch_false in H. now destruct H as (_ & -> & _).
Qed.

Lemma findMatch_initiator_rule_witness :
  findMatch "A" 20 "r1"
    (mkState [("A", 1); ("B", 2)] ["B"] [] [("A", "A"); ("B", "B")] [])
  = (mkState [("A", 1); ("B", 2)] []
       [("r1", mkRoom ["A"; "B"] 20)]
       [("A", "A"); ("B", "B"); ("r1", "A"); ("r1", "B")] [],
     [("A", Matched "r1" "B" true); ("B", Matched "r1" "A" false)], true)
  /\ exists waitingUserId,
      In waitingUserId ["B"] /\
      waitingUserId <> "A" /\
      [("A", Matched "r1" "B" true); ("B", Matched "r1" "A" false)]
      = [("A", Matched "r1" waitingUserId true);
         (waitingUserId, Matched "r1" "A" false)] /\
      JsMap.get "r1" [("r1", mkRoom ["A"; "B"] 20)]
      = Some (mkRoom ["A"; waitingUserId] 20).
Proof.
  split; [reflexivity|].
  exact (@findMatch_initiator_rule "A" 20 "r1"
           (mkState [("A", 1); ("B", 2)] ["B"] [] [("A", "A"); ("B", "B")] [])
           _ _ true eq_refl).
Defined.

(** ** The room adapter *)

Module SocketIOFacts.

Lemma joined_In (sid : SocketId) (room : RoomId) (a : SocketIO.Adapter) :
  SocketIO.joined sid room a = true <-> In (room, sid) a.
Proof.
  unfold SocketIO.joined. rewrite existsb_exists. split.
  - intros [[r s] [Hin E]]. simpl in E. apply andb_true_iff in E.
    destruct E as [E1 E2]. apply String.eqb_eq in E1, E2. now subst.
  - intros H. exists (room, sid). simpl. now rewrite !String.eqb_refl.
Qed.

Lemma joined_false (sid : SocketId) (room : RoomId) (a : SocketIO.Adapter) :
  SocketIO.joined sid room a = false <-> ~ In (room, sid) a.
Proof.
  rewrite <- joined_In. destruct (SocketIO.joined sid room a); split; congruence.
Qed.

Lemma In_members (m : SocketId) (room : RoomId) (a : SocketIO.Adapter) :
  In m (SocketIO.members room a) <-> In (room, m) a.
Proof.
  unfold SocketIO.members. rewrite in_map_iff. split.
  - intros [[r s] [E Hin]]. simpl in E. subst s.
    apply filter_In in Hin. destruct Hin as [Hin E]. simpl in E.
    apply String.eqb_eq in E. now subst.
  - intros H. exists (room, m). split; [reflexivity|].
    apply filter_In. simpl. now rewrite String.eqb_refl.
Qed.

Lemma In_to (m sender : SocketId) (room : RoomId) (a : SocketIO.Adapter) :
  In m (SocketIO.to sender room a) <-> In (room, m) a /\ m <> sender.
Proof.
  unfold SocketIO.to. rewrite filter_In, In_members.
  eqb_case m sender; simpl; intuition congruence.
Qed.

Lemma In_join (sid s : SocketId) (room r : RoomId) (a : SocketIO.Adapter) :
  In (r, s) (SocketIO.join sid room a) <-> In (r, s) a \/ (r = room /\ s = sid).
Proof.
  unfold SocketIO.join. destruct (SocketIO.joined sid room a) eqn:E.
  - apply joined_In in E. split; [tauto|]. intros [? | [-> ->]]; assumption.
  - rewrite in_app_iff. simpl. split.
    + intros [H | [[= <- <-] | []]]; [now left | now right].
    + intros [H | [-> ->]]; [now left | right; now left].
Qed.

Lemma In_leave (sid s : SocketId) (room r : RoomId) (a : SocketIO.Adapter) :
  In (r, s) (SocketIO.leave sid room a) <-> In (r, s) a /\ ~ (r = room /\ s = sid).
Proof.
  unfold SocketIO.leave. rewrite filter_In. simpl.
  eqb_case r room; eqb_case s sid; simpl; intuition congruence.
Qed.

Lemma In_leaveAll (sid s : SocketId) (r : RoomId) (a : SocketIO.Adapter) :
  In (r, s) (SocketIO.leaveAll sid a) <-> In (r, s) a /\ s <> sid.
Proof.
  unfold SocketIO.leaveAll. rewrite filter_In. simpl.
  eqb_case s sid; simpl; intuition congruence.
Qed.

Lemma NoDup_join (sid : SocketId) (room : RoomId) (a : SocketIO.Adapter) :
  NoDup a -> NoDup (SocketIO.join sid room a).
Proof.
  intros H. unfold SocketIO.join.
  destruct (SocketIO.joined sid room a) eqn:E; [assumption|].
  apply joined_false in E.
  apply NoDup_app; [assumption | constructor; [simpl; tauto | constructor] |].
  intros p Hp [<- | []]. contradiction.
Qed.

Lemma NoDup_leave (sid : SocketId) (room : RoomId) (a : SocketIO.Adapter) :
  NoDup a -> NoDup (SocketIO.leave sid room a).
Proof. apply NoDup_filter. Qed.

Lemma NoDup_leaveAll (sid : SocketId) (a : SocketIO.Adapter) :
  NoDup a -> NoDup (SocketIO.leaveAll sid a).
Proof. apply NoDup_filter. Qed.

End SocketIOFacts.

(** ** Runs *)

Lemma run_reachable (evs : list Event) :
  forall st st' out,
    reachable st -> run evs st = Some (st', out) -> reachable st'.
Proof.
  induction evs as [| e evs IH]; simpl; intros st st' out Hr H.
  - now inversion H; subst.
  - destruct (step e st) as [[st1 out1] |] eqn:Hs; [| discriminate].
    destruct (run evs st1) as [[st2 out2] |] eqn:Hrun; [| discriminate].
    inversion H; subst.
    eapply IH; [| eassumption].
    eapply reachable_step; eassumption.
Qed.

Lemma scenario_reachable : reachable scenario_state.
Proof.
  apply (@run_reachable scenario init scenario_state
           [("B", WaitingForMatch); ("A", Matched "r1" "B" true);
            ("B", Matched "r1" "A" false); ("C", WaitingForMatch)]).
  - constructor.
  - vm_compute. reflexivity.
Qed.

(** ** Relay *)

Lemma In_broadcast (socket : Socket) (room : RoomId) (ev ev' : ServerEvent)
    (st : State) (recipient : SocketId) :
  In (recipient, ev') (broadcast socket room ev st) <->
  ev' = ev /\ SocketIO.joined recipient room (adapter st) = true /\
  recipient <> sock_id socket.
Proof.
  unfold broadcast. rewrite in_map_iff, SocketIOFacts.joined_In. split.
  - intros [m [[= <- <-] Hin]]. apply SocketIOFacts.In_to in Hin. tauto.
  - intros (-> & Hj & Hne). exists recipient. split; [reflexivity|].
    apply SocketIOFacts.In_to. tauto.
Qed.

Lemma relay_state (socket : Socket) (roomId : RoomId) (kind : RelayKind)
    (now : Z) (st : State) :
  fst (relay socket roomId kind now st) = st.
Proof. destruct kind; reflexivity. Qed.

Lemma In_relay (socket : Socket) (roomId : RoomId) (kind : RelayKind)
    (now : Z) (st : State) (recipient : SocketId) (ev : ServerEvent) :
  In (recipient, ev) (snd (relay socket roomId kind now st)) <->
  ev = relayed_event (sock_id socket) kind now /\
  SocketIO.joined recipient roomId (adapter st) = true /\
  recipient <> sock_id socket.
Proof. destruct kind; simpl; apply In_broadcast. Qed.

(** C1, as the code has it.  A relay request is not checked against the
    room registry: it leaves the state as it is, and its payload, tagged
    with the sender, goes to exactly the sockets that are joined to the
    named room and are not the sender, whether or not the sender is a
    member of that room. *)
Theorem relay_delivery (socket : Socket) (roomId : RoomId) (kind : RelayKind)
    (now : Z) (st : State) (recipient : SocketId) (ev : ServerEvent) :
  fst (relay socket roomId kind now st) = st /\
  (In (recipient, ev) (snd (relay socket roomId kind now st)) <->
   ev = relayed_event (sock_id socket) kind now /\
   SocketIO.joined recipient roomId (adapter st) = true /\
   recipient <> sock_id socket).
Proof.
  split; [apply relay_state | apply In_relay].
Qed.

(** C1 fails as stated: in a reachable state in which room [r1] pairs [A]
    and [B], an offer naming [r1] sent by [C], who is not a member of it,
    is accepted and delivered to both [A] and [B]. *)
Lemma relay_non_member_counterexample :
  reachable scenario_state /\
  JsMap.get "r1" (activeRooms scenario_state) = Some (mkRoom ["A"; "B"] 20) /\
  includes "C" ["A"; "B"] = false /\
  step (Relay "C" "r1" (KOffer "sdp") 40) scenario_state
  = Some (scenario_state,
          [("A", WebrtcOffer "sdp" "C"); ("B", WebrtcOffer "sdp" "C")]).
Proof.
  split; [exact scenario_reachable|].
  repeat split; vm_compute; reflexivity.
Qed.

(** ** A second find-match of a paired session *)

(** C2 fails on the code: after [B] and [A] are paired in [r1] and [C]
    waits, a second find-match of [A] pairs it with [C] in [r3], and [A]
    is then a member of the two active rooms [r1] and [r3]. *)
Theorem rematch_two_rooms :
  option_map (fun r => activeRooms (fst r)) (run scenario_rematch init)
  = Some [("r1", mkRoom ["A"; "B"] 20); ("r3", mkRoom ["A"; "C"] 40)] /\
  option_map (fun r => rooms_of "A" (fst r)) (run scenario_rematch init)
  = Some ["r1"; "r3"].
Proof. split; vm_compute; reflexivity. Qed.

(** C3 fails on the code: [A] is connected and a member of the active
    room [r1], its find-match is answered with [matched] and not with
    [already-in-room], and it is paired again: the waiting set loses [C]
    and the registry gains [r3]. *)
Theorem find_match_while_matched :
  JsMap.get "A" (connectedUsers scenario_state) = Some 1 /\
  rooms_of "A" scenario_state = ["r1"] /\
  on_find_match (mkSocket "A" 1) 40 "r3" scenario_state
  = (paired "A" "C" 40 "r3" scenario_state,
     [("A", Matched "r3" "C" true); ("C", Matched "r3" "A" false)]) /\
  waitingUsers scenario_state = ["C"] /\
  waitingUsers (paired "A" "C" 40 "r3" scenario_state) = [] /\
  JsMap.keys (activeRooms (paired "A" "C" 40 "r3" scenario_state))
  = ["r1"; "r3"].
Proof. repeat split; vm_compute; reflexivity. Qed.

(** ** The staleness sweep *)

Section Sweep.

Variable now : Z.

Lemma In_sweep_fold (l acc : JsMap.t Room) (k : RoomId) (v : Room) :
  In (k, v) (fold_left (sweep_visit now) l acc) <->
  In (k, v) acc /\ forall v', In (k, v') l -> stale now v' = false.
Proof.
  revert acc. induction l as [| [k0 v0] l IH]; intros acc; simpl.
  - tauto.
  - rewrite IH. unfold sweep_visit. simpl. split.
    + intros [Hin Hl]. destruct (stale now v0) eqn:S0.
      * apply JsMapFacts.In_delete in Hin. destruct Hin as [Hin Hne].
        split; [assumption|]. intros v' [[= -> ->] | H]; [congruence | auto].
      * split; [assumption|]. intros v' [[= -> ->] | H]; [assumption | auto].
    + intros [Hin Hl]. split; [| intros v' H; apply Hl; now right].
      destruct (stale now v0) eqn:S0; [| assumption].
      apply JsMapFacts.In_delete. split; [assumption|].
      intros ->. specialize (Hl v0 (or_introl eq_refl)). congruence.
Qed.

Lemma NoDup_sweep_fold (l acc : JsMap.t Room) :
  NoDup (JsMap.keys acc) -> NoDup (JsMap.keys (fold_left (sweep_visit now) l acc)).
Proof.
  revert acc. induction l as [| e l IH]; intros acc H; simpl; [assumption|].
  apply IH. unfold sweep_visit. destruct (stale _ _).
  - now apply JsMapFacts.NoDup_delete.
  - assumption.
Qed.

Lemma get_sweep_rooms (rooms : JsMap.t Room) (roomId : RoomId) :
  NoDup (JsMap.keys rooms) ->
  JsMap.get roomId (sweep_rooms now rooms)
  = match JsMap.get roomId rooms with
    | Some room => if stale now room then None else Some room
    | None => None
    end.
Proof.
  intros Hnd. unfold sweep_rooms.
  destruct (JsMap.get roomId rooms) as [room |] eqn:G.
  - apply JsMapFacts.get_In in G. destruct (stale now room) eqn:S.
    + apply JsMapFacts.get_None. intros Hk.
      apply in_map_iff in Hk. destruct Hk as [[k v] [E Hin]]. simpl in E. subst k.
      apply In_sweep_fold in Hin. destruct Hin as [_ Hl].
      specialize (Hl room G). congruence.
    + apply JsMapFacts.In_get; [now apply NoDup_sweep_fold|].
      apply In_sweep_fold. split; [assumption|].
      intros v' Hin.
      apply JsMapFacts.In_get in Hin; [| assumption].
      apply JsMapFacts.In_get in G; [| assumption]. congruence.
  - apply JsMapFacts.get_None. intros Hk.
    apply in_map_iff in Hk. destruct Hk as [[k v] [E Hin]]. simpl in E. subst k.
    apply In_sweep_fold in Hin. destruct Hin as [Hin _].
    apply JsMapFacts.In_keys in Hin. apply JsMapFacts.get_None in G. contradiction.
Qed.

End Sweep.

(** C9.  One run of the cleanup task removes from [activeRooms] every
    room whose age [now - createdAt] exceeds one hour (3600000 ms), with
    no condition on its members, and keeps every other room as it was.
    [activeRooms] is a [Map]: its keys are distinct. *)
Theorem cleanup_sweeps_old_rooms (now : Z) (st : State) (roomId : RoomId) :
  NoDup (JsMap.keys (activeRooms st)) ->
  JsMap.get roomId (activeRooms (on_cleanup now st))
  = match JsMap.get roomId (activeRooms st) with
    | Some room =>
        if now - createdAt room >? 3600000 then None else Some room
    | None => None
    end.
Proof.
  intros Hnd. simpl. now apply get_sweep_rooms.
Qed.

Lemma cleanup_sweeps_old_rooms_witness :
  NoDup (JsMap.keys (activeRooms
           (mkState [] [] [("old", mkRoom ["A"; "B"] 0);
                           ("young", mkRoom ["C"; "D"] 1)] [] []))) /\
  JsMap.get "old"
    (activeRooms
       (on_cleanup 3600001
          (mkState [] [] [("old", mkRoom ["A"; "B"] 0);
                          ("young", mkRoom ["C"; "D"] 1)] [] [])))
  = None /\
  JsMap.get "young"
    (activeRooms
       (on_cleanup 3600001
          (mkState [] [] [("old", mkRoom ["A"; "B"] 0);
                          ("young", mkRoom ["C"; "D"] 1)] [] [])))
  = Some (mkRoom ["C"; "D"] 1).
Proof.
  assert (Hnd : NoDup (JsMap.keys (activeRooms
           (mkState [] [] [("old", mkRoom ["A"; "B"] 0);
                           ("young", mkRoom ["C"; "D"] 1)] [] [])))).
  { simpl. repeat constructor; simpl; intuition discriminate. }
  split; [exact Hnd|]. split.
  - exact (cleanup_sweeps_old_rooms 3600001 _ "old" Hnd).
  - exact (cleanup_sweeps_old_rooms 3600001 _ "young" Hnd).
Defined.

(** ** Disconnection *)

Lemma filter_idempotent (A : Type) (f : A -> bool) (l : list A) :
  filter f (filter f l) = filter f l.
Proof.
  induction l as [| x l IH]; simpl; [reflexivity|].
  destruct (f x) eqn:E; simpl; [rewrite E; f_equal |]; exact IH.
Qed.

Lemma other_socket_connected (sid : SocketId) (room : Room) (st st' : State) :
  connectedUsers st = connectedUsers st' ->
  other_socket sid room st = other_socket sid room st'.
Proof. unfold other_socket. now intros ->. Qed.

Lemma other_socket_Some (sid other : SocketId) (room : Room) (st : State) :
  other_socket sid room st = Some other ->
  In other (users room) /\ other <> sid /\ truthy other = true /\
  JsMap.get other (connectedUsers st) <> None.
Proof.
  unfold other_socket, find_other.
  match goal with
  | |- context [find ?f ?l] => destruct (find f l) as [o |] eqn:F
  end; [| discriminate].
  apply find_some in F. destruct F as [Hin Hne].
  destruct (truthy o) eqn:T; [| discriminate].
  destruct (JsMap.get o (connectedUsers st)) eqn:G; [| discriminate].
  intros [= <-]. repeat split; try assumption; try congruence.
  intros ->. rewrite String.eqb_refl in Hne. discriminate.
Qed.

(** The loop of the disconnect handler cleans the first room that lists
    the socket, and only that one. *)
Lemma disconnect_loop_first (sid : SocketId) (st : State)
    (iter : list (RoomId * Room)) :
  disconnect_loop sid st iter
  = match first_room_of sid iter with
    | None => (st, [])
    | Some (roomId, room) =>
        match other_socket sid room st with
        | Some other =>
            (with_activeRooms (JsMap.delete roomId (activeRooms st))
               (with_adapter (SocketIO.leave other roomId (adapter st)) st),
             [(other, PartnerDisconnected)])
        | None =>
            (with_activeRooms (JsMap.delete roomId (activeRooms st)) st, [])
        end
    end.
Proof.
  unfold first_room_of.
  induction iter as [| [roomId room] rest IH]; simpl; [reflexivity|].
  destruct (includes sid (users room)); [| exact IH].
  destruct (other_socket sid room st); reflexivity.
Qed.

Lemma first_room_of_none (sid : SocketId) (rooms : JsMap.t Room) :
  in_some_room sid rooms = false -> first_room_of sid rooms = None.
Proof.
  unfold in_some_room, first_room_of.
  induction rooms as [| e rooms IH]; simpl; [reflexivity|].
  destruct (includes sid (users (snd e))); simpl; [discriminate | exact IH].
Qed.

(** The handler's result, by cases on the first room that lists the
    socket. *)
Lemma on_disconnect_first (socket : Socket) (now : Z) (st : State) :
  on_disconnect socket now st
  = let sid := sock_id socket in
    let connected' := JsMap.delete sid (connectedUsers st) in
    let waiting' := JsSet.delete sid (waitingUsers st) in
    let sessions' := update_disconnected sid now (user_sessions st) in
    match first_room_of sid (activeRooms st) with
    | None =>
        (mkState connected' waiting' (activeRooms st) (adapter st) sessions',
         [])
    | Some (roomId, room) =>
        match other_socket sid room st with
        | Some other =>
            (mkState connected' waiting'
               (JsMap.delete roomId (activeRooms st))
               (SocketIO.leave other roomId (adapter st)) sessions',
             [(other, PartnerDisconnected)])
        | None =>
            (mkState connected' waiting'
               (JsMap.delete roomId (activeRooms st)) (adapter st) sessions',
             [])
        end
    end.
Proof.
  unfold on_disconnect. rewrite disconnect_loop_first. simpl.
  destruct (first_room_of (sock_id socket) (activeRooms st)) as [[roomId room] |];
    [| reflexivity].
  rewrite (@other_socket_connected _ room _ st) by reflexivity.
  destruct (other_socket (sock_id socket) room st); reflexivity.
Qed.

Lemma filter_single (A : Type) (f : A -> bool) (l : list A) (e : A) :
  find f l = Some e -> (List.length (filter f l) <= 1)%nat ->
  forall x, In x l -> f x = true -> x = e.
Proof.
  intros F Hlen x Hx Hfx. apply find_some in F. destruct F as [Hin Hf].
  assert (H1 : In x (filter f l)) by (apply filter_In; tauto).
  assert (H2 : In e (filter f l)) by (apply filter_In; tauto).
  destruct (filter f l) as [| y [| z l']]; simpl in *.
  - contradiction.
  - intuition congruence.
  - lia.
Qed.

(** A socket listed by at most one room is listed by none after its
    disconnect handler ran. *)
Lemma disconnect_cleans_single_room (socket : Socket) (now : Z) (st : State) :
  (List.length (rooms_of (sock_id socket) st) <= 1)%nat ->
  in_some_room (sock_id socket)
    (activeRooms (fst (on_disconnect socket now st))) = false.
Proof.
  intros Hlen. rewrite on_disconnect_first. cbv zeta.
  unfold rooms_of in Hlen. rewrite length_map in Hlen.
  destruct (first_room_of (sock_id socket) (activeRooms st))
    as [[roomId room] |] eqn:F.
  - assert (Hdel : in_some_room (sock_id socket)
                     (JsMap.delete roomId (activeRooms st)) = false).
    { destruct (in_some_room (sock_id socket)
                  (JsMap.delete roomId (activeRooms st))) eqn:E;
        [| reflexivity].
      apply existsb_exists in E. destruct E as [[k v] [Hin Hf]].
      apply JsMapFacts.In_delete in Hin. destruct Hin as [Hin Hne].
      pose proof (filter_single _ _ F Hlen _ Hin Hf) as Heq. congruence. }
    destruct (other_socket (sock_id socket) room st); exact Hdel.
  - simpl. destruct (in_some_room (sock_id socket) (activeRooms st)) eqn:E;
      [| reflexivity].
    apply existsb_exists in E. destruct E as [x [Hin Hf]].
    eapply find_none in F; [| eassumption]. simpl in F. congruence.
Qed.

(** C8.  The disconnect handler run a second time for a socket that its
    first run cleaned up (no active room lists it any more) emits
    nothing, returns normally and leaves the in-memory state (connected
    sockets, waiting set, room registry, adapter) as the first run left
    it; over the two runs at most one [partner-disconnected] is emitted,
    and exactly one, to the partner, when the socket was in a room whose
    other member is connected. *)
Theorem disconnect_idempotent (socket : Socket) (t1 t2 : Z) (st : State) :
  let sid := sock_id socket in
  let first := on_disconnect socket t1 st in
  let second := on_disconnect socket t2 (fst first) in
  in_some_room sid (activeRooms (fst first)) = false ->
  snd second = [] /\
  memory (fst second) = memory (fst first) /\
  (List.length (filter is_partner_disconnected (snd first ++ snd second)) <= 1)%nat /\
  (forall roomId room partner,
     first_room_of sid (activeRooms st) = Some (roomId, room) ->
     other_socket sid room st = Some partner ->
     snd first ++ snd second = [(partner, PartnerDisconnected)]).
Proof.
  intros sid first second Hclean.
  assert (Hsecond : snd second = [] /\ memory (fst second) = memory (fst first)).
  { subst second. rewrite (on_disconnect_first socket t2 (fst first)). cbv zeta.
    fold sid. rewrite (first_room_of_none _ _ Hclean). simpl.
    subst first. rewrite on_disconnect_first. cbv zeta. fold sid.
    unfold memory.
    destruct (first_room_of sid (activeRooms st)) as [[roomId room] |];
      [destruct (other_socket sid room st) |]; simpl;
      unfold JsMap.delete, JsSet.delete; rewrite !filter_idempotent;
      auto. }
  destruct Hsecond as [Hout Hmem]. rewrite Hout, app_nil_r.
  repeat split; try assumption.
  - subst first. rewrite on_disconnect_first. cbv zeta. fold sid.
    destruct (first_room_of sid (activeRooms st)) as [[roomId room] |];
      [destruct (other_socket sid room st) |]; simpl; lia.
  - intros roomId room partner Hfirst Hother.
    subst first. rewrite on_disconnect_first. cbv zeta. fold sid.
    rewrite Hfirst, Hother. reflexivity.
Qed.

Lemma disconnect_idempotent_witness :
  in_some_room "A"
    (activeRooms (fst (on_disconnect (mkSocket "A" 1) 50 scenario_state)))
  = false /\
  snd (on_disconnect (mkSocket "A" 1) 50 scenario_state)
  = [("B", PartnerDisconnected)] /\
  snd (on_disconnect (mkSocket "A" 1) 60
         (fst (on_disconnect (mkSocket "A" 1) 50 scenario_state))) = [].
Proof.
  split; [reflexivity|]. split; [reflexivity|].
  exact (proj1 (disconnect_idempotent (mkSocket "A" 1) 50 60 scenario_state
                  eq_refl)).
Defined.

(** The premise of the theorem matters: a socket listed by two rooms is
    cleaned out of the first one only, and a second run of the handler
    cleans the second one and notifies that partner. *)
Example disconnect_twice_two_rooms :
  rooms_of "A" scenario_rematch_state = ["r1"; "r3"] /\
  snd (on_disconnect (mkSocket "A" 1) 50 scenario_rematch_state)
  = [("B", PartnerDisconnected)] /\
  snd (on_disconnect (mkSocket "A" 1) 60
         (fst (on_disconnect (mkSocket "A" 1) 50 scenario_rematch_state)))
  = [("C", PartnerDisconnected)].
Proof. repeat split; vm_compute; reflexivity. Qed.

(** ** The parts of skip-user *)

(** The handler is the broadcast of [partner-skipped] to the named room,
    the cleanup of that room, and [findMatch] for the sender. *)
Lemma on_skip_user_findMatch (socket : Socket) (roomId : RoomId) (now : Z)
    (newRoomId : RoomId) (st st3 : State) (out2 : list Emit) (matched : bool) :
  findMatch (sock_id socket) now newRoomId
    (skip_cleanup (sock_id socket) roomId st) = (st3, out2, matched) ->
  on_skip_user socket roomId now newRoomId st
  = (st3,
     broadcast socket roomId PartnerSkipped st ++ out2 ++
     (if matched then [] else [(sock_id socket, WaitingForMatch)])).
Proof.
  intros F. unfold on_skip_user. fold (skip_cleanup (sock_id socket) roomId st).
  cbv zeta. rewrite F. destruct matched; [now rewrite app_nil_r | reflexivity].
Qed.

Lemma skip_cleanup_waiting (sid : SocketId) (roomId : RoomId) (st : State) :
  waitingUsers (skip_cleanup sid roomId st) = waitingUsers st.
Proof.
  unfold skip_cleanup. state_simpl.
  destruct (JsMap.get roomId (activeRooms st)) as [room |]; [| reflexivity].
  destruct (other_socket sid room _); reflexivity.
Qed.

Lemma skip_cleanup_connected (sid : SocketId) (roomId : RoomId) (st : State) :
  connectedUsers (skip_cleanup sid roomId st) = connectedUsers st.
Proof.
  unfold skip_cleanup. state_simpl.
  destruct (JsMap.get roomId (activeRooms st)) as [room |]; [| reflexivity].
  destruct (other_socket sid room _); reflexivity.
Qed.

Lemma skip_cleanup_rooms (sid : SocketId) (roomId : RoomId) (st : State) :
  activeRooms (skip_cleanup sid roomId st)
  = JsMap.delete roomId (activeRooms st).
Proof.
  unfold skip_cleanup. state_simpl.
  destruct (JsMap.get roomId (activeRooms st)) as [room |] eqn:G.
  - destruct (other_socket sid room _); reflexivity.
  - state_simpl. symmetry. now apply JsMapFacts.delete_absent.
Qed.

(** ** A disconnected session is never paired *)

Section NeverSelected.

Variable sid : SocketId.

Lemma not_matched_nil : never_matched sid [].
Proof. intros ? ? ? ? []. Qed.

Lemma not_matched_app (out1 out2 : list Emit) :
  never_matched sid out1 -> never_matched sid out2 -> never_matched sid (out1 ++ out2).
Proof.
  intros H1 H2 r k p b Hin. apply in_app_iff in Hin.
  destruct Hin; [eapply H1 | eapply H2]; eassumption.
Qed.

Lemma not_matched_broadcast (socket : Socket) (room : RoomId)
    (ev : ServerEvent) (st : State) :
  (forall roomId partner initiator, ev <> Matched roomId partner initiator) ->
  never_matched sid (broadcast socket room ev st).
Proof.
  intros Hev r k p b Hin. apply In_broadcast in Hin.
  destruct Hin as [E _]. symmetry in E. now apply Hev in E.
Qed.

Lemma findMatch_avoids (userId : SocketId) (now : Z) (roomId : RoomId)
    (st st' : State) (out : list Emit) (matched : bool) :
  findMatch userId now roomId st = (st', out, matched) ->
  userId <> sid -> ~ In sid (waitingUsers st) ->
  ~ In sid (waitingUsers st') /\ never_matched sid out.
Proof.
  intros H Hne Hw. destruct matched.
  - apply findMatch_true in H.
    destruct H as [w (Hin & Hwne & _ & _ & -> & ->)].
    assert (w <> sid) by (intros ->; contradiction).
    split.
    + simpl. rewrite !JsSetFacts.In_remove. tauto.
    + intros r k p b [[= <- <- <- <-] | [[= <- <- <- <-] | []]]; tauto.
  - apply findMatch_false in H. destruct H as (-> & -> & _).
    split; [| apply not_matched_nil].
    simpl. rewrite JsSetFacts.In_add, JsSetFacts.In_remove.
    intros [[? _] | ?]; [contradiction | congruence].
Qed.

Lemma step_avoids (e : Event) (st st' : State) (out : list Emit) :
  step e st = Some (st', out) ->
  event_socket e <> Some sid -> ~ In sid (waitingUsers st) ->
  ~ In sid (waitingUsers st') /\ never_matched sid out.
Proof.
  intros Hstep Hev Hw.
  destruct e as [s uid now | s now rid | s room kind now | s room now rid
                | s now | now]; simpl in Hstep, Hev.
  - destruct (fresh_socket s st); [| discriminate].
    inversion Hstep; subst. split; [exact Hw | apply not_matched_nil].
  - destruct (JsMap.get s (connectedUsers st)) as [uid |]; [| discriminate].
    destruct (fresh_room rid st); [| discriminate].
    unfold on_find_match in Hstep. simpl in Hstep.
    destruct (select_existing_session uid (user_sessions st)).
    + destruct (findMatch s now rid st) as [[s1 o1] m] eqn:F.
      apply findMatch_avoids in F; [| congruence | assumption].
      destruct F as [F1 F2].
      destruct m; inversion Hstep; subst; split; try assumption.
      apply not_matched_app; [assumption|].
      intros ? ? ? ? [[=] | []].
    + inversion Hstep; subst. split; [assumption|].
      intros ? ? ? ? [[=] | []].
  - destruct (JsMap.get s (connectedUsers st)) as [uid |]; [| discriminate].
    inversion Hstep as [Hrel].
    split.
    + pose proof (relay_state (mkSocket s uid) room kind now st) as Hst.
      rewrite Hrel in Hst. simpl in Hst. now subst.
    + intros r k p b Hin.
      pose proof (In_relay (mkSocket s uid) room kind now st
                    r (Matched k p b)) as Hd.
      rewrite Hrel in Hd. simpl in Hd. apply Hd in Hin.
      destruct Hin as [E _]. destruct kind; discriminate.
  - destruct (JsMap.get s (connectedUsers st)) as [uid |]; [| discriminate].
    destruct (fresh_room rid st); [| discriminate].
    destruct (findMatch s now rid (skip_cleanup s room st))
      as [[s3 o2] m] eqn:F.
    rewrite (@on_skip_user_findMatch (mkSocket s uid) _ _ _ _ _ _ _ F) in Hstep.
    inversion Hstep; subst.
    apply findMatch_avoids in F;
      [| congruence | now rewrite skip_cleanup_waiting].
    destruct F as [F1 F2]. split; [assumption|].
    repeat apply not_matched_app; try assumption.
    + apply not_matched_broadcast. discriminate.
    + destruct m; [apply not_matched_nil | intros ? ? ? ? [[=] | []]].
  - destruct (JsMap.get s (connectedUsers st)) as [uid |]; [| discriminate].
    rewrite on_disconnect_first in Hstep. cbv zeta in Hstep. simpl in Hstep.
    assert (Hd : ~ In sid (JsSet.delete s (waitingUsers st)))
      by (rewrite JsSetFacts.In_remove; tauto).
    destruct (first_room_of s (activeRooms st)) as [[k r] |];
      [destruct (other_socket s r _) |];
      inversion Hstep; subst; (split; [exact Hd |]);
      intros ? ? ? ? Hin; simpl in Hin; intuition discriminate.
  - inversion Hstep; subst. split; [exact Hw | apply not_matched_nil].
Qed.

Lemma run_avoids (evs : list Event) :
  forall st st' out,
    run evs st = Some (st', out) ->
    Forall (fun e => event_socket e <> Some sid) evs ->
    ~ In sid (waitingUsers st) ->
    ~ In sid (waitingUsers st') /\ never_matched sid out.
Proof.
  induction evs as [| e evs IH]; simpl; intros st st' out Hrun Hall Hw.
  - inversion Hrun; subst. split; [exact Hw | apply not_matched_nil].
  - destruct (step e st) as [[st1 out1] |] eqn:Hs; [| discriminate].
    destruct (run evs st1) as [[st2 out2] |] eqn:Hr; [| discriminate].
    inversion Hrun; subst. inversion Hall; subst.
    destruct (step_avoids _ _ Hs) as [Hw1 Hm1]; try assumption.
    destruct (IH _ _ _ Hr) as [Hw2 Hm2]; try assumption.
    split; [exact Hw2 | now apply not_matched_app].
Qed.

End NeverSelected.

(** When the disconnect handler of a waiting socket has run to its end
    with its queries resolved, the socket is out of [waitingUsers], and in
    every run of later events (none of them from that socket, which is
    gone) it is never back in [waitingUsers] and no [matched] event is
    sent to it or names it as the partner. *)
Theorem disconnected_waiting_never_selected (socket : Socket) (now : Z)
    (st : State) (evs : list Event) (st' : State) (out : list Emit) :
  In (sock_id socket) (waitingUsers st) ->
  Forall (fun e => event_socket e <> Some (sock_id socket)) evs ->
  run evs (fst (on_disconnect socket now st)) = Some (st', out) ->
  ~ In (sock_id socket) (waitingUsers (fst (on_disconnect socket now st))) /\
  ~ In (sock_id socket) (waitingUsers st') /\
  forall recipient roomId partner initiator,
    In (recipient, Matched roomId partner initiator) out ->
    recipient <> sock_id socket /\ partner <> sock_id socket.
Proof.
  intros _ Hall Hrun.
  assert (Hw : ~ In (sock_id socket)
                 (waitingUsers (fst (on_disconnect socket now st)))).
  { rewrite on_disconnect_first. cbv zeta.
    destruct (first_room_of _ _) as [[k r] |];
      [destruct (other_socket _ r _) |]; simpl;
      rewrite JsSetFacts.In_remove; tauto. }
  split; [exact Hw|].
  eapply run_avoids; eassumption.
Qed.

Lemma disconnected_waiting_never_selected_witness :
  In "C" (waitingUsers scenario_state) /\
  exists st' out,
    run [Connection "D" 4 60; FindMatch "D" 70 "r4"]
      (fst (on_disconnect (mkSocket "C" 3) 50 scenario_state))
    = Some (st', out) /\
    out = [("D", WaitingForMatch)] /\
    ~ In "C" (waitingUsers st').
Proof.
  split; [vm_compute; auto|].
  eexists. eexists. split; [vm_compute; reflexivity|].
  split; [reflexivity|].
  refine (proj1 (proj2
            (@disconnected_waiting_never_selected (mkSocket "C" 3) 50
               scenario_state [Connection "D" 4 60; FindMatch "D" 70 "r4"]
               _ _ _ _ _))).
  - vm_compute. auto.
  - repeat constructor; discriminate.
  - vm_compute. reflexivity.
Defined.

(** *** The handlers between their [await]s *)

(** Run without another handler in between and with its query resolved,
    the connection callback cut at its [await] is [on_connection]. *)
Lemma on_connection_uninterrupted (socket : Socket) (now : Z) (st : State) :
  on_connection_resume socket now Resolved (on_connection_start socket st)
  = on_connection socket now st.
Proof. reflexivity. Qed.

(** Likewise the disconnect handler cut at its [await]s is
    [on_disconnect]. *)
Lemma on_disconnect_uninterrupted (socket : Socket) (now : Z) (st : State) :
  on_disconnect_resolved socket now st = on_disconnect socket now st.
Proof.
  rewrite on_disconnect_first. unfold on_disconnect_resolved.
  unfold on_disconnect_resume at 1. cbv zeta. state_simpl.
  destruct (first_room_of (sock_id socket) (activeRooms st))
    as [[roomId room] |]; [| reflexivity].
  unfold on_disconnect_resume. cbv zeta. state_simpl.
  rewrite (@other_socket_connected _ room _ st) by reflexivity.
  destruct (other_socket (sock_id socket) room st); reflexivity.
Qed.

(** C7 fails on the code: [C] waits and [D] is connected.  The socket
    of [C] closes and its disconnect handler waits for its [UPDATE]: [C]
    is still in [waitingUsers] and in [connectedUsers].  A find-match of
    [D] handled meanwhile pairs [D] with [C] and sends [matched] to both.
    When the [UPDATE] rejects, the handler ends there: [C] stays in the
    waiting set, and a find-match of [D] handled at any time after pairs
    [D] with it. *)
Theorem disconnect_await_window :
  let C := mkSocket "C" 3 in
  let D := mkSocket "D" 4 in
  let waiting := on_disconnect_start C scenario_queue_state in
  let rejected :=
    fst (fst (on_disconnect_resume C 30 AwaitSession Rejected waiting)) in
  reachable scenario_queue_state /\
  waitingUsers scenario_queue_state = ["C"] /\
  waitingUsers waiting = ["C"] /\
  JsMap.get "C" (connectedUsers waiting) = Some 3 /\
  snd (on_find_match D 20 "r1" waiting)
  = [("D", Matched "r1" "C" true); ("C", Matched "r1" "D" false)] /\
  waitingUsers rejected = ["C"] /\
  snd (on_find_match D 40 "r1" rejected)
  = [("D", Matched "r1" "C" true); ("C", Matched "r1" "D" false)].
Proof.
  cbv zeta. split; [| repeat split].
  apply (@run_reachable scenario_queue init scenario_queue_state
           [("C", WaitingForMatch)]);
    [constructor | vm_compute; reflexivity].
Qed.

(** ** The invariant of the reachable states *)

Lemma includes_In (id : SocketId) (l : list SocketId) :
  includes id l = true <-> In id l.
Proof. apply JsSetFacts.has_In. Qed.

Lemma fresh_room_spec (roomId : RoomId) (st : State) :
  fresh_room roomId st = true ->
  ~ In roomId (JsMap.keys (activeRooms st)) /\
  forall s, ~ In (roomId, s) (adapter st).
Proof.
  unfold fresh_room. rewrite andb_true_iff, !negb_true_iff.
  intros [H1 H2]. split.
  - intros Hin. apply (JsSetFacts.has_In roomId) in Hin.
    exact (eq_true_false_abs _ Hin H1).
  - intros s Hin.
    assert (E : existsb (fun p : RoomId * SocketId => String.eqb (fst p) roomId)
                  (adapter st) = true).
    { apply existsb_exists. exists (roomId, s). split; [assumption|].
      simpl. apply String.eqb_refl. }
    exact (eq_true_false_abs _ E H2).
Qed.

Lemma fresh_socket_spec (sid : SocketId) (st : State) :
  fresh_socket sid st = true ->
  JsMap.get sid (connectedUsers st) = None /\
  ~ In sid (waitingUsers st) /\
  (forall k room, In (k, room) (activeRooms st) -> ~ In sid (users room)) /\
  ~ In sid (JsMap.keys (activeRooms st)) /\
  (forall r s, In (r, s) (adapter st) -> r <> sid /\ s <> sid).
Proof.
  unfold fresh_socket. rewrite !andb_true_iff, !negb_true_iff.
  intros [[[[H1 H2] H3] H4] H5]. repeat split.
  - apply JsMapFacts.get_None. intros Hin.
    apply (JsSetFacts.has_In sid) in Hin. exact (eq_true_false_abs _ Hin H1).
  - now apply JsSetFacts.has_false.
  - intros k room Hin Hu. apply includes_In in Hu.
    assert (E : in_some_room sid (activeRooms st) = true).
    { apply existsb_exists. exists (k, room). split; assumption. }
    exact (eq_true_false_abs _ E H3).
  - intros Hin. apply (JsSetFacts.has_In sid) in Hin.
    exact (eq_true_false_abs _ Hin H4).
  - intros ->.
    assert (E : existsb (fun p : RoomId * SocketId =>
                           String.eqb (fst p) sid || String.eqb (snd p) sid)
                  (adapter st) = true).
    { apply existsb_exists. exists (sid, s). split; [assumption|].
      simpl. now rewrite String.eqb_refl. }
    exact (eq_true_false_abs _ E H5).
  - intros ->.
    assert (E : existsb (fun p : RoomId * SocketId =>
                           String.eqb (fst p) sid || String.eqb (snd p) sid)
                  (adapter st) = true).
    { apply existsb_exists. exists (r, sid). split; [assumption|].
      simpl. rewrite String.eqb_refl. apply orb_true_r. }
    exact (eq_true_false_abs _ E H5).
Qed.

Lemma invariant_init : invariant init.
Proof.
  constructor; simpl; try tauto; try constructor.
Qed.

Lemma invariant_with_waiting (ws : JsSet.t) (st : State) :
  invariant st ->
  (forall w, In w ws -> JsMap.get w (connectedUsers st) <> None) ->
  invariant (with_waitingUsers ws st).
Proof.
  intros [I1 I2 I3 I4 I5 I6 I7] H. constructor; simpl; assumption.
Qed.

Lemma invariant_unqueued (userId : SocketId) (st : State) :
  invariant st -> invariant (unqueued userId st).
Proof.
  intros I. apply invariant_with_waiting; [assumption|].
  intros w Hin. apply JsSetFacts.In_remove in Hin.
  apply (inv_waiting_connected I). tauto.
Qed.

Lemma invariant_paired (u w : SocketId) (now : Z) (roomId : RoomId)
    (st : State) :
  invariant st -> fresh_room roomId st = true -> u <> w ->
  invariant (paired u w now roomId st).
Proof.
  intros [I1 I2 I3 I4 I5 I6 I7] Hfresh Hne.
  apply fresh_room_spec in Hfresh. destruct Hfresh as [Fk Fa].
  constructor; simpl.
  - intros w0 Hin. apply JsSetFacts.In_remove in Hin. apply I1. tauto.
  - assumption.
  - now apply JsMapFacts.NoDup_set.
  - now do 2 apply SocketIOFacts.NoDup_join.
  - intros k room Hin. apply JsMapFacts.In_set in Hin.
    destruct Hin as [[-> ->] | Hin]; [| eapply I5; eassumption].
    exists u, w. split; [reflexivity | assumption].
  - intros k room x Hin Hx Hc. rewrite !SocketIOFacts.In_join.
    apply JsMapFacts.In_set in Hin. destruct Hin as [[-> ->] | Hin].
    + simpl in Hx. destruct Hx as [<- | [<- | []]]; tauto.
    + left. left. eapply I6; eassumption.
  - intros k room x Hin Hj. rewrite !SocketIOFacts.In_join in Hj.
    apply JsMapFacts.In_set in Hin. destruct Hin as [[-> ->] | Hin].
    + simpl. destruct Hj as [[Hj | [_ ->]] | [_ ->]]; try tauto.
      exfalso. eapply Fa; eassumption.
    + assert (k <> roomId).
      { intros ->. apply Fk. eapply JsMapFacts.In_keys; eassumption. }
      destruct Hj as [[Hj | [? _]] | [? _]]; try contradiction.
      eapply I7; eassumption.
Qed.

Lemma invariant_findMatch (userId : SocketId) (now : Z) (roomId : RoomId)
    (st st' : State) (out : list Emit) (matched : bool) :
  invariant st -> fresh_room roomId st = true ->
  JsMap.get userId (connectedUsers st) <> None ->
  findMatch userId now roomId st = (st', out, matched) ->
  invariant st'.
Proof.
  intros I Hfresh Hc H. destruct matched.
  - apply findMatch_true in H. destruct H as [w (_ & Hne & _ & _ & -> & _)].
    apply invariant_paired; [now apply invariant_unqueued | exact Hfresh |].
    congruence.
  - apply findMatch_false in H. destruct H as (-> & _ & _).
    apply invariant_with_waiting; [assumption|].
    intros w Hin. apply JsSetFacts.In_add in Hin.
    destruct Hin as [Hin | ->]; [| assumption].
    apply JsSetFacts.In_remove in Hin. apply (inv_waiting_connected I). tauto.
Qed.

Lemma invariant_on_connection (sid : SocketId) (uid : UserId) (now : Z)
    (st : State) :
  invariant st -> fresh_socket sid st = true ->
  invariant (on_connection (mkSocket sid uid) now
               (with_adapter (SocketIO.join sid sid (adapter st)) st)).
Proof.
  intros [I1 I2 I3 I4 I5 I6 I7] Hfresh.
  apply fresh_socket_spec in Hfresh.
  destruct Hfresh as (Fc & Fw & Fr & Fk & Fa).
  constructor; simpl.
  - intros w Hin. eqb_case w sid.
    + rewrite JsMapFacts.get_set_same. discriminate.
    + rewrite JsMapFacts.get_set_other by assumption. now apply I1.
  - intros row Hin. apply in_app_iff in Hin.
    destruct Hin as [Hin | [<- | []]]; [now apply I2 | reflexivity].
  - assumption.
  - now apply SocketIOFacts.NoDup_join.
  - assumption.
  - intros k room u Hin Hu Hc. apply SocketIOFacts.In_join. left.
    eapply I6; try eassumption.
    eqb_case u sid.
    + exfalso. eapply Fr; eassumption.
    + now rewrite JsMapFacts.get_set_other in Hc by assumption.
  - intros k room u Hin Hj. apply SocketIOFacts.In_join in Hj.
    destruct Hj as [Hj | [-> _]]; [eapply I7; eassumption |].
    exfalso. apply Fk. eapply JsMapFacts.In_keys; eassumption.
Qed.

(** [skip-user] calls [findMatch] in a state that satisfies the invariant. *)
Lemma invariant_skip_cleanup (sid : SocketId) (roomId : RoomId) (st : State) :
  invariant st -> invariant (skip_cleanup sid roomId st).
Proof.
  intros [I1 I2 I3 I4 I5 I6 I7]. unfold skip_cleanup. state_simpl.
  destruct (JsMap.get roomId (activeRooms st)) as [room |] eqn:G.
  - assert (Hgen : forall a',
               NoDup a' ->
               (forall k u, k <> roomId -> In (k, u) (adapter st) -> In (k, u) a') ->
               (forall k u, In (k, u) a' -> In (k, u) (adapter st)) ->
               invariant (mkState (connectedUsers st) (waitingUsers st)
                            (JsMap.delete roomId (activeRooms st)) a'
                            (user_sessions st))).
    { intros a' Hnd Hsub Hsup. constructor; simpl; try assumption.
      - now apply JsMapFacts.NoDup_delete.
      - intros k rm Hin. apply JsMapFacts.In_delete in Hin.
        eapply I5. apply Hin.
      - intros k rm u Hin Hu Hc. apply JsMapFacts.In_delete in Hin.
        destruct Hin as [Hin Hne]. apply Hsub; [assumption|].
        eapply I6; eassumption.
      - intros k rm u Hin Hj. apply JsMapFacts.In_delete in Hin.
        destruct Hin as [Hin Hne]. eapply I7; [eassumption|]. now apply Hsup. }
    destruct (other_socket sid room _) as [other |]; state_simpl; apply Hgen;
      state_simpl.
    + now do 2 apply SocketIOFacts.NoDup_leave.
    + intros k u Hne Hin. rewrite !SocketIOFacts.In_leave. tauto.
    + intros k u Hin. rewrite !SocketIOFacts.In_leave in Hin. tauto.
    + now apply SocketIOFacts.NoDup_leave.
    + intros k u Hne Hin. rewrite !SocketIOFacts.In_leave. tauto.
    + intros k u Hin. rewrite !SocketIOFacts.In_leave in Hin. tauto.
  - apply JsMapFacts.get_None in G.
    constructor; state_simpl; try assumption.
    + now apply SocketIOFacts.NoDup_leave.
    + intros k rm u Hin Hu Hc. apply SocketIOFacts.In_leave.
      split; [eapply I6; eassumption |].
      intros [-> _]. apply G. eapply JsMapFacts.In_keys; eassumption.
    + intros k rm u Hin Hj. apply SocketIOFacts.In_leave in Hj.
      eapply I7; [eassumption | tauto].
Qed.

Lemma fresh_room_skip_cleanup (sid : SocketId) (roomId newRoomId : RoomId)
    (st : State) :
  fresh_room newRoomId st = true ->
  fresh_room newRoomId (skip_cleanup sid roomId st) = true.
Proof.
  intros Hfresh. apply fresh_room_spec in Hfresh. destruct Hfresh as [Fk Fa].
  unfold skip_cleanup. state_simpl.
  assert (Hgen : forall rooms' a',
             (forall k, In k (JsMap.keys rooms') ->
                        In k (JsMap.keys (activeRooms st))) ->
             (forall p, In p a' -> In p (adapter st)) ->
             fresh_room newRoomId
               (mkState (connectedUsers st) (waitingUsers st) rooms' a'
                  (user_sessions st)) = true).
  { intros rooms' a' Hr Ha. unfold fresh_room. simpl.
    rewrite andb_true_iff, !negb_true_iff. split.
    - destruct (existsb (String.eqb newRoomId) (JsMap.keys rooms')) eqn:E;
        [| reflexivity].
      apply existsb_exists in E. destruct E as [k [Hin E]].
      apply String.eqb_eq in E. subst k. exfalso. apply Fk. now apply Hr.
    - match goal with
      | |- existsb ?f a' = false => destruct (existsb f a') eqn:E
      end; [| reflexivity].
      apply existsb_exists in E. destruct E as [[k s] [Hin E]].
      simpl in E. apply String.eqb_eq in E. subst k.
      exfalso. apply (Fa s). now apply Ha. }
  destruct (JsMap.get roomId (activeRooms st)) as [room |];
    [destruct (other_socket sid room _) |]; state_simpl; apply Hgen;
    state_simpl;
    try (intros k Hin; apply JsMapFacts.In_keys_delete in Hin; tauto);
    try (intros [k0 s0] Hin; rewrite ?SocketIOFacts.In_leave in Hin; tauto);
    auto.
Qed.

(** Dropping sockets, rooms and memberships keeps the invariant, as long
    as a room that stays keeps the memberships of its connected members. *)
Lemma invariant_shrink (st : State) (connected' : JsMap.t UserId)
    (waiting' : JsSet.t) (rooms' : JsMap.t Room) (a' : SocketIO.Adapter)
    (sessions' : list SessionRow) :
  invariant st ->
  (forall w, In w waiting' -> JsMap.get w connected' <> None) ->
  (forall u, JsMap.get u connected' <> None ->
             JsMap.get u (connectedUsers st) <> None) ->
  (forall row, In row sessions' -> row_room_id row = None) ->
  NoDup (JsMap.keys rooms') ->
  (forall k rm, In (k, rm) rooms' -> In (k, rm) (activeRooms st)) ->
  NoDup a' ->
  (forall p, In p a' -> In p (adapter st)) ->
  (forall k rm u, In (k, rm) rooms' -> In (k, u) (adapter st) ->
                  JsMap.get u connected' <> None -> In (k, u) a') ->
  invariant (mkState connected' waiting' rooms' a' sessions').
Proof.
  intros [I1 I2 I3 I4 I5 I6 I7] Hw Hc Hs Hrk Hr Ha Hsub Hkeep.
  constructor; state_simpl; try assumption.
  - intros k rm Hin. eapply I5. apply Hr. eassumption.
  - intros k rm u Hin Hu Hcu. eapply Hkeep; try eassumption.
    eapply I6; [apply Hr | |]; eauto.
  - intros k rm u Hin Hj. eapply I7; [apply Hr |]; eauto.
Qed.

Lemma update_disconnected_room_id (sid : SocketId) (now : Z)
    (rows : list SessionRow) :
  (forall row, In row rows -> row_room_id row = None) ->
  forall row, In row (update_disconnected sid now rows) ->
              row_room_id row = None.
Proof.
  intros H row Hin. unfold update_disconnected in Hin.
  apply in_map_iff in Hin. destruct Hin as [r [E Hin]].
  specialize (H r Hin).
  destruct (String.eqb (row_socket_id r) sid); subst row; exact H.
Qed.

Lemma invariant_on_disconnect (sid : SocketId) (uid : UserId) (now : Z)
    (st : State) :
  invariant st ->
  invariant (fst (on_disconnect (mkSocket sid uid) now
                    (with_adapter (SocketIO.leaveAll sid (adapter st)) st))).
Proof.
  intros I. rewrite on_disconnect_first. state_simpl.
  cbn [sock_id].
  assert (Hw : forall w, In w (JsSet.delete sid (waitingUsers st)) ->
                         JsMap.get w (JsMap.delete sid (connectedUsers st)) <> None).
  { intros w Hin. apply JsSetFacts.In_remove in Hin. destruct Hin as [Hin Hne].
    rewrite JsMapFacts.get_delete_other by assumption.
    now apply (inv_waiting_connected I). }
  assert (Hc : forall u, JsMap.get u (JsMap.delete sid (connectedUsers st)) <> None ->
                         u <> sid /\ JsMap.get u (connectedUsers st) <> None).
  { intros u Hu. eqb_case u sid.
    - now rewrite JsMapFacts.get_delete_same in Hu.
    - now rewrite JsMapFacts.get_delete_other in Hu by assumption. }
  pose proof (@update_disconnected_room_id sid now _ (inv_room_id_null I)) as Hs.
  destruct (first_room_of sid (activeRooms st)) as [[roomId room] |];
    [destruct (other_socket sid room _) as [other |] |];
    state_simpl; apply (@invariant_shrink st); try assumption;
    try (intros u Hu; now apply Hc);
    try (apply JsMapFacts.NoDup_delete; exact (inv_rooms_keys I));
    try exact (inv_rooms_keys I);
    try (intros k rm Hin; apply JsMapFacts.In_delete in Hin; tauto);
    try (repeat apply SocketIOFacts.NoDup_leave;
         apply SocketIOFacts.NoDup_leaveAll; exact (inv_adapter_nodup I));
    try (intros [k0 s0] Hin;
         rewrite ?SocketIOFacts.In_leave, ?SocketIOFacts.In_leaveAll in Hin; tauto);
    try (intros k rm u Hin Hj Hu; apply Hc in Hu;
         try apply JsMapFacts.In_delete in Hin;
         rewrite ?SocketIOFacts.In_leave, ?SocketIOFacts.In_leaveAll; tauto);
    auto.
Qed.

Lemma invariant_on_cleanup (now : Z) (st : State) :
  invariant st -> invariant (on_cleanup now st).
Proof.
  intros I. unfold on_cleanup. state_simpl.
  apply (@invariant_shrink st).
  - exact I.
  - exact (inv_waiting_connected I).
  - auto.
  - intros row Hin. apply filter_In in Hin. apply (inv_room_id_null I). tauto.
  - apply NoDup_sweep_fold. exact (inv_rooms_keys I).
  - intros k rm Hin. apply In_sweep_fold in Hin. tauto.
  - exact (inv_adapter_nodup I).
  - auto.
  - auto.
Qed.

Lemma invariant_step (e : Event) (st st' : State) (out : list Emit) :
  invariant st -> step e st = Some (st', out) -> invariant st'.
Proof.
  intros I Hstep.
  destruct e as [s uid now | s now rid | s room kind now | s room now rid
                | s now | now]; simpl in Hstep.
  - destruct (fresh_socket s st) eqn:F; [| discriminate].
    inversion Hstep; subst. now apply invariant_on_connection.
  - destruct (JsMap.get s (connectedUsers st)) as [uid |] eqn:G; [| discriminate].
    destruct (fresh_room rid st) eqn:F; [| discriminate].
    unfold on_find_match in Hstep. cbn [sock_id sock_user] in Hstep.
    destruct (select_existing_session uid (user_sessions st)).
    + destruct (findMatch s now rid st) as [[s1 o1] m] eqn:FM.
      assert (invariant s1).
      { eapply invariant_findMatch; try eassumption. congruence. }
      destruct m; inversion Hstep; subst; assumption.
    + inversion Hstep; subst. assumption.
  - destruct (JsMap.get s (connectedUsers st)) as [uid |]; [| discriminate].
    inversion Hstep as [Hrel].
    pose proof (relay_state (mkSocket s uid) room kind now st) as Hst.
    rewrite Hrel in Hst. simpl in Hst. now subst.
  - destruct (JsMap.get s (connectedUsers st)) as [uid |] eqn:G; [| discriminate].
    destruct (fresh_room rid st) eqn:F; [| discriminate].
    destruct (findMatch s now rid (skip_cleanup s room st))
      as [[s3 o2] m] eqn:FM.
    rewrite (@on_skip_user_findMatch (mkSocket s uid) _ _ _ _ _ _ _ FM) in Hstep.
    inversion Hstep; subst.
    eapply invariant_findMatch; [| | | exact FM].
    + now apply invariant_skip_cleanup.
    + now apply fresh_room_skip_cleanup.
    + rewrite skip_cleanup_connected. congruence.
  - destruct (JsMap.get s (connectedUsers st)) as [uid |]; [| discriminate].
    inversion Hstep as [Hd].
    pose proof (invariant_on_disconnect s uid now I) as I'.
    now rewrite Hd in I'.
  - inversion Hstep; subst. now apply invariant_on_cleanup.
Qed.

(** Every reachable state satisfies the invariant. *)
Lemma reachable_invariant (st : State) : reachable st -> invariant st.
Proof.
  induction 1 as [| e st st' out _ IH Hstep].
  - exact invariant_init.
  - eapply invariant_step; eassumption.
Qed.

Lemma lobby_reachable : reachable lobby_state.
Proof.
  apply (@run_reachable lobby init lobby_state [("B", WaitingForMatch)]).
  - constructor.
  - vm_compute. reflexivity.
Qed.

(** ** find-match in a reachable state *)

Lemma select_existing_session_null (uid : UserId) (rows : list SessionRow) :
  (forall row, In row rows -> row_room_id row = None) ->
  select_existing_session uid rows = [].
Proof.
  induction rows as [| r rows IH]; simpl; [reflexivity|].
  intros H. rewrite (H r) by now left.
  apply IH. intros row Hin. apply H. now right.
Qed.

(** In a reachable state the query of the find-match handler returns no
    row: the handler never answers [already-in-room]. *)
Lemma find_match_query_empty (uid : UserId) (st : State) :
  reachable st -> select_existing_session uid (user_sessions st) = [].
Proof.
  intros Hr. apply select_existing_session_null.
  exact (inv_room_id_null (reachable_invariant Hr)).
Qed.

(** So no reachable state makes the handler emit [already-in-room]. *)
Lemma find_match_never_already_in_room (socket : Socket) (now : Z)
    (roomId : RoomId) (st : State) (recipient : SocketId) (room : RoomId) :
  reachable st ->
  ~ In (recipient, AlreadyInRoom room)
      (snd (on_find_match socket now roomId st)).
Proof.
  intros Hr. unfold on_find_match. rewrite (find_match_query_empty _ Hr).
  destruct (findMatch (sock_id socket) now roomId st) as [[st' out] matched]
    eqn:F.
  destruct matched.
  - apply findMatch_true in F. destruct F as [w (_ & _ & _ & _ & _ & ->)].
    intros [[=] | [[=] | []]].
  - apply findMatch_false in F. destruct F as (_ & -> & _).
    intros [[=] | []].
Qed.

Lemma find_other_Some (sid other : SocketId) (l : list SocketId) :
  find_other sid l = Some other -> In other l /\ other <> sid.
Proof.
  unfold find_other. intros F. apply find_some in F. destruct F as [Hin Hne].
  split; [assumption|]. intros ->. rewrite String.eqb_refl in Hne. discriminate.
Qed.

Lemma find_other_None (sid : SocketId) (l : list SocketId) :
  find_other sid l = None -> forall w, In w l -> w = sid.
Proof.
  unfold find_other. intros F w Hin.
  eapply find_none in F; [| eassumption]. simpl in F.
  eqb_case w sid; [reflexivity | discriminate].
Qed.

Lemma find_other_delete (sid : SocketId) (l : list SocketId) :
  find_other sid (JsSet.delete sid l) = find_other sid l.
Proof.
  unfold find_other, JsSet.delete.
  induction l as [| x l IH]; simpl; [reflexivity|].
  destruct (negb (String.eqb x sid)) eqn:E; simpl; rewrite ?E; auto.
Qed.

(** With everybody connected the loop of [findMatch] takes the first
    waiting socket that is not the caller. *)
Lemma findMatch_loop_connected (userId : SocketId) (now : Z) (roomId : RoomId)
    (st : State) (iter : list SocketId) :
  JsMap.get userId (connectedUsers st) <> None ->
  (forall w, In w iter -> JsMap.get w (connectedUsers st) <> None) ->
  findMatch_loop userId now roomId st iter
  = match find_other userId iter with
    | Some w =>
        Some (paired userId w now roomId st,
              [(userId, Matched roomId w true); (w, Matched roomId userId false)])
    | None => None
    end.
Proof.
  intros Hu. unfold find_other.
  induction iter as [| w rest IH]; simpl; intros Hall; [reflexivity|].
  destruct (negb (String.eqb w userId)).
  - destruct (JsMap.get userId (connectedUsers st)); [| congruence].
    destruct (JsMap.get w (connectedUsers st)) eqn:G; [reflexivity|].
    exfalso. apply (Hall w); [now left | assumption].
  - apply IH. intros w' Hin. apply Hall. now right.
Qed.

Lemma on_find_match_reachable (socket : Socket) (now : Z) (roomId : RoomId)
    (st : State) :
  reachable st ->
  JsMap.get (sock_id socket) (connectedUsers st) <> None ->
  on_find_match socket now roomId st
  = match find_other (sock_id socket) (waitingUsers st) with
    | Some partner =>
        (paired (sock_id socket) partner now roomId
           (unqueued (sock_id socket) st),
         [(sock_id socket, Matched roomId partner true);
          (partner, Matched roomId (sock_id socket) false)])
    | None =>
        (with_waitingUsers
           (JsSet.add (sock_id socket)
              (JsSet.delete (sock_id socket) (waitingUsers st))) st,
         [(sock_id socket, WaitingForMatch)])
    end.
Proof.
  intros Hr Hc. unfold on_find_match.
  rewrite (find_match_query_empty _ Hr).
  unfold findMatch. fold (unqueued (sock_id socket) st).
  rewrite findMatch_loop_connected.
  - cbn [waitingUsers unqueued with_waitingUsers].
    rewrite find_other_delete.
    destruct (find_other (sock_id socket) (waitingUsers st)); reflexivity.
  - exact Hc.
  - intros w Hin.
    apply (inv_waiting_connected (invariant_unqueued _ (reachable_invariant Hr))).
    exact Hin.
Qed.

(** C5.  A find-match of a connected socket, in any state the server can
    be in: when some other socket is waiting, the first of them in the
    waiting set is selected, the caller and that partner are both out of
    the waiting set afterwards, the room registry gains one room whose
    users are exactly the two, and both receive [matched]; when no other
    socket is waiting, the caller is in the waiting set afterwards, the
    registry is as before and the caller receives [waiting-for-match]. *)
Theorem find_match_pairs_or_waits (socket : Socket) (now : Z)
    (roomId : RoomId) (st : State) :
  reachable st ->
  JsMap.get (sock_id socket) (connectedUsers st) <> None ->
  let sid := sock_id socket in
  let result := on_find_match socket now roomId st in
  ((exists w, In w (waitingUsers st) /\ w <> sid) ->
   exists partner,
     find_other sid (waitingUsers st) = Some partner /\
     In partner (waitingUsers st) /\ partner <> sid /\
     (forall w, In w (waitingUsers (fst result)) <->
                In w (waitingUsers st) /\ w <> sid /\ w <> partner) /\
     activeRooms (fst result)
     = JsMap.set roomId (mkRoom [sid; partner] now) (activeRooms st) /\
     JsMap.get roomId (activeRooms (fst result))
     = Some (mkRoom [sid; partner] now) /\
     snd result = [(sid, Matched roomId partner true);
                   (partner, Matched roomId sid false)]) /\
  ((forall w, In w (waitingUsers st) -> w = sid) ->
   waitingUsers (fst result) = [sid] /\
   activeRooms (fst result) = activeRooms st /\
   snd result = [(sid, WaitingForMatch)]).
Proof.
  intros Hr Hc sid result. subst result.
  rewrite (on_find_match_reachable _ _ _ Hr Hc). fold sid.
  destruct (find_other sid (waitingUsers st)) as [partner |] eqn:F; split.
  - intros _. exists partner.
    destruct (find_other_Some _ _ F) as [Hin Hne].
    split; [reflexivity|]. split; [assumption|]. split; [assumption|].
    unfold paired, unqueued. state_simpl.
    split; [| split; [reflexivity | split; [| reflexivity]]].
    + intros w. rewrite !JsSetFacts.In_remove. tauto.
    + apply JsMapFacts.get_set_same.
  - intros Hall. destruct (find_other_Some _ _ F) as [Hin Hne].
    specialize (Hall _ Hin). contradiction.
  - intros [w [Hin Hne]]. pose proof (find_other_None _ _ F _ Hin). contradiction.
  - intros Hall. state_simpl. split; [| split; reflexivity].
    assert (E : JsSet.delete sid (waitingUsers st) = []).
    { destruct (JsSet.delete sid (waitingUsers st)) as [| x l] eqn:D;
        [reflexivity|].
      assert (Hx : In x (JsSet.delete sid (waitingUsers st)))
        by (rewrite D; now left).
      apply JsSetFacts.In_remove in Hx. destruct Hx as [Hx Hne].
      specialize (Hall _ Hx). contradiction. }
    rewrite E. reflexivity.
Qed.

Lemma find_match_pairs_or_waits_witness :
  reachable lobby_state /\
  JsMap.get "A" (connectedUsers lobby_state) <> None /\
  (exists w, In w (waitingUsers lobby_state) /\ w <> "A") /\
  exists partner,
    find_other "A" (waitingUsers lobby_state) = Some partner /\
    snd (on_find_match (mkSocket "A" 1) 20 "r1" lobby_state)
    = [("A", Matched "r1" partner true); (partner, Matched "r1" "A" false)].
Proof.
  assert (Hc : JsMap.get "A" (connectedUsers lobby_state) <> None)
    by (vm_compute; discriminate).
  assert (Hw : exists w, In w (waitingUsers lobby_state) /\ w <> "A").
  { exists "B". split; [vm_compute; auto | discriminate]. }
  split; [exact lobby_reachable|]. split; [exact Hc|]. split; [exact Hw|].
  destruct (proj1 (@find_match_pairs_or_waits (mkSocket "A" 1) 20 "r1"
                     lobby_state lobby_reachable Hc) Hw)
    as [partner (F & _ & _ & _ & _ & _ & Hout)].
  exists partner. split; assumption.
Defined.

(** ** skip-user *)

(** [findMatch] leaves the registry as it is or adds the new room. *)
Lemma findMatch_rooms (userId : SocketId) (now : Z) (roomId : RoomId)
    (st st' : State) (out : list Emit) (matched : bool) :
  findMatch userId now roomId st = (st', out, matched) ->
  forall k, k <> roomId ->
    JsMap.get k (activeRooms st') = JsMap.get k (activeRooms st).
Proof.
  intros H k Hne. destruct matched.
  - apply findMatch_true in H. destruct H as [w (_ & _ & _ & _ & -> & _)].
    unfold paired, unqueued. state_simpl.
    now apply JsMapFacts.get_set_other.
  - apply findMatch_false in H. now destruct H as (-> & _ & _).
Qed.

Lemma findMatch_no_skipped (userId : SocketId) (now : Z) (roomId : RoomId)
    (st st' : State) (out : list Emit) (matched : bool) (m : SocketId) :
  findMatch userId now roomId st = (st', out, matched) ->
  ~ In (m, PartnerSkipped) out.
Proof.
  intros H. destruct matched.
  - apply findMatch_true in H. destruct H as [w (_ & _ & _ & _ & _ & ->)].
    intros [[=] | [[=] | []]].
  - apply findMatch_false in H. destruct H as (_ & -> & _). intros [].
Qed.

(** C10.  A skip-user that names a room of the registry, in any state the
    server can be in and from any socket (nothing relates the sender to
    the room): [partner-skipped] is emitted to every connected socket the
    room lists other than the sender, never to the sender, and the room
    is no longer in the registry afterwards. *)
Theorem skip_user_no_membership_check (socket : Socket) (roomId : RoomId)
    (room : Room) (now : Z) (newRoomId : RoomId) (st : State) :
  reachable st ->
  JsMap.get roomId (activeRooms st) = Some room ->
  fresh_room newRoomId st = true ->
  let result := on_skip_user socket roomId now newRoomId st in
  (forall m, In m (users room) -> m <> sock_id socket ->
             JsMap.get m (connectedUsers st) <> None ->
             In (m, PartnerSkipped) (snd result)) /\
  ~ In (sock_id socket, PartnerSkipped) (snd result) /\
  JsMap.get roomId (activeRooms (fst result)) = None.
Proof.
  intros Hr G Hfresh result. subst result.
  pose proof (reachable_invariant Hr) as I.
  destruct (findMatch (sock_id socket) now newRoomId
              (skip_cleanup (sock_id socket) roomId st))
    as [[st3 out2] matched] eqn:F.
  rewrite (@on_skip_user_findMatch _ _ _ _ _ _ _ _ F). cbn [fst snd].
  split; [| split].
  - intros m Hm Hne Hc. apply in_app_iff. left.
    apply In_broadcast. split; [reflexivity|]. split; [| assumption].
    apply SocketIOFacts.joined_In.
    eapply (inv_member_joined I); try eassumption.
    now apply JsMapFacts.get_In.
  - intros Hin. apply in_app_iff in Hin. destruct Hin as [Hin | Hin].
    + apply In_broadcast in Hin. tauto.
    + apply in_app_iff in Hin. destruct Hin as [Hin | Hin].
      * eapply findMatch_no_skipped; eassumption.
      * destruct matched; simpl in Hin; intuition discriminate.
  - assert (Hne : roomId <> newRoomId).
    { intros ->. apply fresh_room_spec in Hfresh. destruct Hfresh as [Fk _].
      apply Fk. apply JsMapFacts.get_In in G.
      eapply JsMapFacts.In_keys; eassumption. }
    rewrite (@findMatch_rooms _ _ _ _ _ _ _ F) by assumption.
    rewrite skip_cleanup_rooms. apply JsMapFacts.get_delete_same.
Qed.

Lemma skip_user_no_membership_check_witness :
  reachable scenario_state /\
  JsMap.get "r1" (activeRooms scenario_state) = Some (mkRoom ["A"; "B"] 20) /\
  fresh_room "r4" scenario_state = true /\
  includes "C" ["A"; "B"] = false /\
  In ("A", PartnerSkipped)
    (snd (on_skip_user (mkSocket "C" 3) "r1" 50 "r4" scenario_state)) /\
  In ("B", PartnerSkipped)
    (snd (on_skip_user (mkSocket "C" 3) "r1" 50 "r4" scenario_state)) /\
  JsMap.get "r1"
    (activeRooms (fst (on_skip_user (mkSocket "C" 3) "r1" 50 "r4"
                         scenario_state))) = None.
Proof.
  pose proof (@skip_user_no_membership_check (mkSocket "C" 3) "r1"
                (mkRoom ["A"; "B"] 20) 50 "r4" scenario_state
                scenario_reachable eq_refl eq_refl) as [Hall [_ Hdel]].
  split; [exact scenario_reachable|].
  split; [reflexivity|]. split; [reflexivity|]. split; [reflexivity|].
  split; [| split; [| exact Hdel]].
  - apply Hall; [simpl; auto | discriminate | vm_compute; discriminate].
  - apply Hall; [simpl; auto | discriminate | vm_compute; discriminate].
Defined.

Lemma NoDup_members (room : RoomId) (a : SocketIO.Adapter) :
  NoDup a -> NoDup (SocketIO.members room a).
Proof.
  unfold SocketIO.members.
  induction a as [| [r s] a IH]; simpl; intros Hnd; [constructor|].
  inversion Hnd as [| ? ? Hnotin Hnd']; subst.
  eqb_case r room; simpl; [| now apply IH].
  constructor; [| now apply IH].
  intros Hin. apply (SocketIOFacts.In_members s room a) in Hin. contradiction.
Qed.

Lemma NoDup_only (A : Type) (x : A) (l : list A) :
  NoDup l -> In x l -> (forall y, In y l -> y = x) -> l = [x].
Proof.
  intros Hnd Hin Hall. destruct l as [| y l]; [contradiction|].
  assert (y = x) by (apply Hall; now left). subst y.
  destruct l as [| z l]; [reflexivity|].
  assert (z = x) by (apply Hall; right; now left). subst z.
  inversion Hnd as [| ? ? Hnotin _]. exfalso. apply Hnotin. now left.
Qed.

(** In a room to which only [a] and [b] are joined, [a]'s broadcast
    reaches [b] alone. *)
Lemma to_partner_only (a b : SocketId) (room : RoomId)
    (ad : SocketIO.Adapter) :
  NoDup ad -> In (room, b) ad -> b <> a ->
  (forall u, In (room, u) ad -> u = a \/ u = b) ->
  SocketIO.to a room ad = [b].
Proof.
  intros Hnd Hb Hne Hall. apply NoDup_only.
  - unfold SocketIO.to. apply NoDup_filter. now apply NoDup_members.
  - apply SocketIOFacts.In_to. tauto.
  - intros y Hy. apply SocketIOFacts.In_to in Hy. destruct Hy as [Hy Hya].
    destruct (Hall _ Hy); [contradiction | assumption].
Qed.




(** * Further properties of the server *)

(** Induction over the reachable states, with the invariant at hand. *)
Lemma reachable_induction (P : State -> Prop) :
  P init ->
  (forall e st st' out,
     reachable st -> invariant st -> P st ->
     step e st = Some (st', out) -> P st') ->
  forall st, reachable st -> P st.
Proof.
  intros Hinit Hstep st Hr.
  induction Hr as [| e st st' out Hr IH Hs]; [exact Hinit|].
  eapply Hstep; try eassumption. now apply reachable_invariant.
Qed.

(** [findMatch] touches neither [connectedUsers] nor [user_sessions]. *)
Lemma findMatch_connected_sessions (userId : SocketId) (now : Z)
    (roomId : RoomId) (st st' : State) (out : list Emit) (matched : bool) :
  findMatch userId now roomId st = (st', out, matched) ->
  connectedUsers st' = connectedUsers st /\
  user_sessions st' = user_sessions st.
Proof.
  intros H. destruct matched.
  - apply findMatch_true in H. destruct H as [w (_ & _ & _ & _ & -> & _)].
    split; reflexivity.
  - apply findMatch_false in H. destruct H as (-> & _ & _). split; reflexivity.
Qed.

Lemma skip_cleanup_sessions (sid : SocketId) (roomId : RoomId) (st : State) :
  user_sessions (skip_cleanup sid roomId st) = user_sessions st.
Proof.
  unfold skip_cleanup. state_simpl.
  destruct (JsMap.get roomId (activeRooms st)) as [room |]; [| reflexivity].
  destruct (other_socket sid room _); reflexivity.
Qed.

Lemma skip_cleanup_adapter (sid : SocketId) (roomId : RoomId) (st : State)
    (p : RoomId * SocketId) :
  In p (adapter (skip_cleanup sid roomId st)) -> In p (adapter st).
Proof.
  unfold skip_cleanup. state_simpl. destruct p as [r s].
  destruct (JsMap.get roomId (activeRooms st)) as [room |];
    [destruct (other_socket sid room _) |]; state_simpl;
    rewrite ?SocketIOFacts.In_leave; tauto.
Qed.

(** ** The waiting set along a run of [step]s *)

Lemma findMatch_waiting_single (userId : SocketId) (now : Z) (roomId : RoomId)
    (st st' : State) (out : list Emit) (matched : bool) :
  (forall w, In w (waitingUsers st) ->
             JsMap.get w (connectedUsers st) <> None) ->
  JsMap.get userId (connectedUsers st) <> None ->
  (List.length (waitingUsers st) <= 1)%nat ->
  findMatch userId now roomId st = (st', out, matched) ->
  (List.length (waitingUsers st') <= 1)%nat.
Proof.
  intros Hwc Hc Hlen H. destruct matched.
  - apply findMatch_true in H. destruct H as [w (_ & _ & _ & _ & -> & _)].
    unfold paired, unqueued. state_simpl. unfold JsSet.delete.
    eapply Nat.le_trans; [apply filter_length_le|].
    eapply Nat.le_trans; [apply filter_length_le | exact Hlen].
  - apply findMatch_false in H. destruct H as (-> & _ & Hnone).
    state_simpl.
    assert (E : JsSet.delete userId (waitingUsers st) = []).
    { destruct (JsSet.delete userId (waitingUsers st)) as [| x l] eqn:D;
        [reflexivity|].
      assert (Hx : In x (JsSet.delete userId (waitingUsers st)))
        by (rewrite D; now left).
      apply JsSetFacts.In_remove in Hx. destruct Hx as [Hx Hne].
      destruct (Hnone x Hx Hne) as [H | H]; [contradiction|].
      exfalso. now apply (Hwc x). }
    rewrite E. simpl. lia.
Qed.

(** Along a run in which every handler finishes before the next event is
    handled, two sockets never wait at the same time. *)
Lemma reachable_waiting_single (st : State) :
  reachable st -> (List.length (waitingUsers st) <= 1)%nat.
Proof.
  revert st.
  apply (reachable_induction
           (fun st => (List.length (waitingUsers st) <= 1)%nat)); [simpl; lia|].
  intros e st st' out Hr I IH Hstep.
  destruct e as [s uid now | s now rid | s room kind now | s room now rid
                | s now | now]; simpl in Hstep.
  - destruct (fresh_socket s st); [| discriminate].
    inversion Hstep; subst. exact IH.
  - destruct (JsMap.get s (connectedUsers st)) as [uid |] eqn:G; [| discriminate].
    destruct (fresh_room rid st); [| discriminate].
    unfold on_find_match in Hstep. cbn [sock_id sock_user] in Hstep.
    destruct (select_existing_session uid (user_sessions st)).
    + destruct (findMatch s now rid st) as [[s1 o1] m] eqn:FM.
      assert ((List.length (waitingUsers s1) <= 1)%nat).
      { eapply findMatch_waiting_single; try eassumption.
        - exact (inv_waiting_connected I).
        - congruence. }
      destruct m; inversion Hstep; subst; assumption.
    + inversion Hstep; subst. exact IH.
  - destruct (JsMap.get s (connectedUsers st)) as [uid |]; [| discriminate].
    inversion Hstep as [Hrel].
    pose proof (relay_state (mkSocket s uid) room kind now st) as Hst.
    rewrite Hrel in Hst. simpl in Hst. now subst.
  - destruct (JsMap.get s (connectedUsers st)) as [uid |] eqn:G; [| discriminate].
    destruct (fresh_room rid st); [| discriminate].
    destruct (findMatch s now rid (skip_cleanup s room st))
      as [[s3 o2] m] eqn:FM.
    rewrite (@on_skip_user_findMatch (mkSocket s uid) _ _ _ _ _ _ _ FM) in Hstep.
    inversion Hstep; subst.
    eapply findMatch_waiting_single; [| | | exact FM].
    + exact (inv_waiting_connected (invariant_skip_cleanup s room I)).
    + rewrite skip_cleanup_connected. congruence.
    + now rewrite skip_cleanup_waiting.
  - destruct (JsMap.get s (connectedUsers st)) as [uid |]; [| discriminate].
    rewrite on_disconnect_first in Hstep. cbv zeta in Hstep.
    cbn [sock_id] in Hstep. state_simpl.
    assert (Hd : (List.length (JsSet.delete s (waitingUsers st)) <= 1)%nat).
    { unfold JsSet.delete.
      eapply Nat.le_trans; [apply filter_length_le | exact IH]. }
    revert Hstep. state_simpl.
    destruct (first_room_of s (activeRooms st)) as [[k r] |];
      [destruct (other_socket s r _) |];
      intros Hstep; inversion Hstep; subst; exact Hd.
  - inversion Hstep; subst. exact IH.
Qed.

(** ** What [findMatch] emits and joins *)

(** What [findMatch] emits goes to the caller and to the socket it
    selected, both in [connectedUsers]; and it joins only those two. *)
Lemma findMatch_recipients (userId : SocketId) (now : Z) (roomId : RoomId)
    (st st' : State) (out : list Emit) (matched : bool) :
  findMatch userId now roomId st = (st', out, matched) ->
  (forall recipient ev, In (recipient, ev) out ->
     JsMap.get recipient (connectedUsers st) <> None) /\
  (forall r s, In (r, s) (adapter st') ->
     In (r, s) (adapter st) \/ JsMap.get s (connectedUsers st) <> None).
Proof.
  intros H. destruct matched.
  - apply findMatch_true in H.
    destruct H as [w (_ & _ & Hu & Hw & -> & ->)]. split.
    + intros recipient ev [[= <- <-] | [[= <- <-] | []]]; assumption.
    + intros r s Hin. unfold paired, unqueued in Hin. revert Hin. state_simpl.
      rewrite !SocketIOFacts.In_join.
      intros [[Hin | [_ ->]] | [_ ->]]; auto.
  - apply findMatch_false in H. destruct H as (-> & -> & _). split.
    + intros ? ? [].
    + intros r s Hin. now left.
Qed.

(** ** Matched events come in pairs *)

Lemma findMatch_pairs (userId : SocketId) (now : Z) (roomId : RoomId)
    (st st' : State) (out : list Emit) (matched : bool)
    (a b : SocketId) (r : RoomId) (i : bool) :
  findMatch userId now roomId st = (st', out, matched) ->
  In (a, Matched r b i) out ->
  In (b, Matched r a (negb i)) out /\ a <> b /\
  JsMap.get r (activeRooms st')
  = Some (mkRoom (if i then [a; b] else [b; a]) now).
Proof.
  intros H Hin. destruct matched.
  - apply findMatch_true in H.
    destruct H as [w (_ & Hne & _ & _ & -> & ->)].
    unfold paired, unqueued. state_simpl.
    destruct Hin as [[= <- <- <- <-] | [[= <- <- <- <-] | []]]; simpl;
      (split; [tauto |]); (split; [congruence |]);
      apply JsMapFacts.get_set_same.
  - apply findMatch_false in H. destruct H as (_ & -> & _). contradiction.
Qed.

(** X3.  Whatever the event, a [matched] sent to [a] naming [b] comes in
    the same transition with the [matched] sent to [b] naming [a] with
    the opposite initiator flag, [a] and [b] differ, and the named room is
    in the registry afterwards listing the initiator first: the server
    never tells only one side of a pairing. *)
Theorem matched_in_pairs (e : Event) (st st' : State) (out : list Emit)
    (a b : SocketId) (r : RoomId) (i : bool) :
  step e st = Some (st', out) ->
  In (a, Matched r b i) out ->
  In (b, Matched r a (negb i)) out /\ a <> b /\
  exists room,
    JsMap.get r (activeRooms st') = Some room /\
    users room = (if i then [a; b] else [b; a]).
Proof.
  intros Hstep Hin.
  destruct e as [s0 uid now | s0 now rid | s0 room kind now | s0 room now rid
                | s0 now | now]; simpl in Hstep.
  - destruct (fresh_socket s0 st); [| discriminate].
    inversion Hstep; subst. contradiction.
  - destruct (JsMap.get s0 (connectedUsers st)) as [uid |]; [| discriminate].
    destruct (fresh_room rid st); [| discriminate].
    unfold on_find_match in Hstep. cbn [sock_id sock_user] in Hstep.
    destruct (select_existing_session uid (user_sessions st)).
    + destruct (findMatch s0 now rid st) as [[s1 o1] m] eqn:FM.
      assert (Ho : In (a, Matched r b i) o1).
      { destruct m; inversion Hstep; subst; [assumption|].
        apply in_app_iff in Hin. destruct Hin as [Hin | [[=] | []]]. exact Hin. }
      destruct (findMatch_pairs _ _ _ _ _ _ _ _ FM Ho) as (H1 & H2 & H3).
      split; [| split; [exact H2 | eexists; split;
                                     [destruct m; inversion Hstep; subst; exact H3
                                     | reflexivity]]].
      destruct m; inversion Hstep; subst; [assumption|].
      apply in_app_iff. now left.
    + inversion Hstep; subst. destruct Hin as [[=] | []].
  - destruct (JsMap.get s0 (connectedUsers st)) as [uid |]; [| discriminate].
    inversion Hstep as [Hrel].
    pose proof (In_relay (mkSocket s0 uid) room kind now st a (Matched r b i))
      as Hd.
    rewrite Hrel in Hd. simpl in Hd. apply Hd in Hin.
    destruct Hin as [E _]. destruct kind; discriminate.
  - destruct (JsMap.get s0 (connectedUsers st)) as [uid |]; [| discriminate].
    destruct (fresh_room rid st); [| discriminate].
    destruct (findMatch s0 now rid (skip_cleanup s0 room st))
      as [[s3 o2] m] eqn:FM.
    rewrite (@on_skip_user_findMatch (mkSocket s0 uid) _ _ _ _ _ _ _ FM) in Hstep.
    inversion Hstep; subst.
    assert (Ho : In (a, Matched r b i) o2).
    { apply in_app_iff in Hin. destruct Hin as [Hin | Hin].
      - apply In_broadcast in Hin. destruct Hin as [E _]. discriminate.
      - apply in_app_iff in Hin. destruct Hin as [Hin | Hin]; [exact Hin|].
        destruct m; [contradiction | destruct Hin as [[=] | []]]. }
    destruct (findMatch_pairs _ _ _ _ _ _ _ _ FM Ho) as (H1 & H2 & H3).
    split; [| split; [exact H2 | eexists; split; [exact H3 | reflexivity]]].
    apply in_app_iff. right. apply in_app_iff. now left.
  - destruct (JsMap.get s0 (connectedUsers st)) as [uid |]; [| discriminate].
    rewrite on_disconnect_first in Hstep. cbv zeta in Hstep.
    destruct (first_room_of _ _) as [[k rm] |];
      [destruct (other_socket _ rm _) |];
      inversion Hstep; subst; try contradiction.
    destruct Hin as [[=] | []].
  - inversion Hstep; subst. contradiction.
Qed.

Lemma matched_in_pairs_witness :
  step (FindMatch "A" 20 "r1") lobby_state
  = Some (lobby_paired_state,
          [("A", Matched "r1" "B" true); ("B", Matched "r1" "A" false)]) /\
  "A" <> "B" /\
  exists room,
    JsMap.get "r1" (activeRooms lobby_paired_state) = Some room /\
    users room = ["A"; "B"].
Proof.
  assert (Hs : step (FindMatch "A" 20 "r1") lobby_state
               = Some (lobby_paired_state,
                       [("A", Matched "r1" "B" true);
                        ("B", Matched "r1" "A" false)]))
    by (vm_compute; reflexivity).
  split; [exact Hs|].
  exact (proj2 (@matched_in_pairs _ _ _ _ "A" "B" "r1" true Hs
                  (or_introl eq_refl))).
Defined.

(** ** Rooms of two *)

(** In a room of the registry that lists [sid] and [partner], the other
    socket the handlers look for is [partner]. *)
Lemma other_member (st : State) (k : RoomId) (room : Room)
    (sid partner : SocketId) :
  invariant st -> In (k, room) (activeRooms st) ->
  In sid (users room) -> In partner (users room) -> partner <> sid ->
  find_other sid (users room) = Some partner /\
  forall u, In u (users room) -> u = sid \/ u = partner.
Proof.
  intros I Hin Hs Hp Hne.
  destruct (inv_room_pair I _ _ Hin) as [a [b [E Hab]]].
  rewrite E in *. unfold find_other. simpl in *.
  destruct Hs as [-> | [-> | []]]; destruct Hp as [-> | [-> | []]];
    try congruence.
  - rewrite String.eqb_refl. simpl.
    rewrite (proj2 (String.eqb_neq partner sid)) by assumption. simpl.
    split; [reflexivity | intuition].
  - rewrite (proj2 (String.eqb_neq partner sid)) by assumption. simpl.
    split; [reflexivity | intuition].
Qed.


(** In a reachable state, the broadcast of a member to its room reaches
    its connected partner and nobody else. *)
Lemma to_room_partner (st : State) (k : RoomId) (room : Room)
    (sid partner : SocketId) :
  invariant st -> In (k, room) (activeRooms st) ->
  In sid (users room) -> In partner (users room) -> partner <> sid ->
  JsMap.get partner (connectedUsers st) <> None ->
  SocketIO.to sid k (adapter st) = [partner].
Proof.
  intros I Hin Hs Hp Hne Hc. apply to_partner_only.
  - exact (inv_adapter_nodup I).
  - eapply (inv_member_joined I); eassumption.
  - assumption.
  - intros u Hu. apply (proj2 (@other_member st k room sid partner I Hin Hs Hp Hne)).
    eapply (inv_joined_member I); eassumption.
Qed.




(** ** Relay inside a room *)

Lemma relay_broadcast (socket : Socket) (roomId : RoomId) (kind : RelayKind)
    (now : Z) (st : State) :
  snd (relay socket roomId kind now st)
  = broadcast socket roomId (relayed_event (sock_id socket) kind now) st.
Proof. destruct kind; reflexivity. Qed.

(** X5.  In every state the server can be in, a relay of any kind sent
    by a member of a room of the registry, naming that room, is delivered
    to its connected partner, exactly once, tagged with the sender, and to
    nobody else. *)
Theorem relay_reaches_partner (socket : Socket) (partner : SocketId)
    (roomId : RoomId) (room : Room) (kind : RelayKind) (now : Z)
    (st : State) :
  reachable st ->
  JsMap.get roomId (activeRooms st) = Some room ->
  In (sock_id socket) (users room) -> In partner (users room) ->
  partner <> sock_id socket ->
  JsMap.get partner (connectedUsers st) <> None ->
  snd (relay socket roomId kind now st)
  = [(partner, relayed_event (sock_id socket) kind now)].
Proof.
  intros Hr G Hs Hp Hne Hc.
  pose proof (reachable_invariant Hr) as I.
  rewrite relay_broadcast. unfold broadcast.
  rewrite (@to_room_partner st roomId room (sock_id socket) partner);
    try assumption; [reflexivity|].
  now apply JsMapFacts.get_In.
Qed.

Lemma relay_reaches_partner_witness :
  reachable scenario_state /\
  JsMap.get "r1" (activeRooms scenario_state) = Some (mkRoom ["A"; "B"] 20) /\
  snd (relay (mkSocket "A" 1) "r1" (KChatMessage "hi") 40 scenario_state)
  = [("B", ChatMessage "hi" "A" 40)].
Proof.
  split; [exact scenario_reachable|]. split; [reflexivity|].
  apply (@relay_reaches_partner (mkSocket "A" 1) "B" "r1"
           (mkRoom ["A"; "B"] 20) (KChatMessage "hi") 40 scenario_state
           scenario_reachable eq_refl).
  - simpl. auto.
  - simpl. auto.
  - discriminate.
  - vm_compute. discriminate.
Defined.

(** X6.  In every state the server can be in, a relay that names a room
    of the registry reaches only sockets that room lists, whoever sends
    it: a third socket never receives the traffic of a room. *)
Theorem relay_only_to_members (socket : Socket) (roomId : RoomId)
    (room : Room) (kind : RelayKind) (now : Z) (st : State)
    (recipient : SocketId) (ev : ServerEvent) :
  reachable st ->
  JsMap.get roomId (activeRooms st) = Some room ->
  In (recipient, ev) (snd (relay socket roomId kind now st)) ->
  In recipient (users room) /\ recipient <> sock_id socket.
Proof.
  intros Hr G Hin. pose proof (reachable_invariant Hr) as I.
  apply In_relay in Hin. destruct Hin as (_ & Hj & Hne).
  split; [| assumption].
  apply SocketIOFacts.joined_In in Hj.
  eapply (inv_joined_member I); [| eassumption].
  now apply JsMapFacts.get_In.
Qed.

Lemma relay_only_to_members_witness :
  reachable scenario_state /\
  JsMap.get "r1" (activeRooms scenario_state) = Some (mkRoom ["A"; "B"] 20) /\
  In ("A", WebrtcOffer "sdp" "C")
    (snd (relay (mkSocket "C" 3) "r1" (KOffer "sdp") 40 scenario_state)) /\
  In "A" ["A"; "B"].
Proof.
  assert (Hin : In ("A", WebrtcOffer "sdp" "C")
                  (snd (relay (mkSocket "C" 3) "r1" (KOffer "sdp") 40
                          scenario_state)))
    by (vm_compute; auto).
  split; [exact scenario_reachable|]. split; [reflexivity|].
  split; [exact Hin|].
  exact (proj1 (@relay_only_to_members (mkSocket "C" 3) "r1"
                  (mkRoom ["A"; "B"] 20) (KOffer "sdp") 40 scenario_state
                  "A" _ scenario_reachable eq_refl Hin)).
Defined.

(** ** The sweep and the Socket.IO rooms *)

(** X7.  The cleanup task only edits the registry: in every state the
    server can be in, after it removed a room older than one hour whose
    two members are connected, nothing was emitted, and a relay naming
    that room, sent by one member, still reaches the other one. *)
Theorem swept_room_still_relays (socket : Socket) (partner : SocketId)
    (roomId : RoomId) (room : Room) (kind : RelayKind) (now later : Z)
    (st : State) :
  reachable st ->
  JsMap.get roomId (activeRooms st) = Some room ->
  now - createdAt room > 3600000 ->
  In (sock_id socket) (users room) -> In partner (users room) ->
  partner <> sock_id socket ->
  JsMap.get partner (connectedUsers st) <> None ->
  step (Cleanup now) st = Some (on_cleanup now st, []) /\
  JsMap.get roomId (activeRooms (on_cleanup now st)) = None /\
  snd (relay socket roomId kind later (on_cleanup now st))
  = [(partner, relayed_event (sock_id socket) kind later)].
Proof.
  intros Hr G Hold Hs Hp Hne Hc.
  pose proof (reachable_invariant Hr) as I.
  split; [reflexivity|]. split.
  - unfold on_cleanup. state_simpl.
    rewrite get_sweep_rooms by exact (inv_rooms_keys I).
    rewrite G. unfold stale, ROOM_MAX_AGE.
    now rewrite (proj2 (Z.gtb_lt _ _)) by lia.
  - rewrite relay_broadcast. unfold broadcast, on_cleanup. state_simpl.
    rewrite (@to_room_partner st roomId room (sock_id socket) partner);
      try assumption; [reflexivity|].
    now apply JsMapFacts.get_In.
Qed.

Lemma swept_room_still_relays_witness :
  reachable scenario_state /\
  JsMap.get "r1" (activeRooms scenario_state) = Some (mkRoom ["A"; "B"] 20) /\
  JsMap.get "r1" (activeRooms (on_cleanup 3600021 scenario_state)) = None /\
  snd (relay (mkSocket "A" 1) "r1" (KChatMessage "hi") 3600030
         (on_cleanup 3600021 scenario_state))
  = [("B", ChatMessage "hi" "A" 3600030)].
Proof.
  split; [exact scenario_reachable|]. split; [reflexivity|].
  refine (proj2 (@swept_room_still_relays (mkSocket "A" 1) "B" "r1"
                   (mkRoom ["A"; "B"] 20) (KChatMessage "hi") 3600021 3600030
                   scenario_state scenario_reachable eq_refl _ _ _ _ _)).
  - simpl. lia.
  - simpl. auto.
  - simpl. auto.
  - discriminate.
  - vm_compute. discriminate.
Defined.

(** ** The guard of [findMatch] *)

(** X8.  [findMatch] pairs only sockets it finds in [connectedUsers]:
    when it pairs, the caller and everybody it notifies are connected;
    when the caller is not in [connectedUsers] it pairs nobody, whoever
    is waiting, emits nothing, leaves the registry alone and puts the
    caller in the waiting set. *)
Theorem findMatch_pairs_connected_only (userId : SocketId) (now : Z)
    (roomId : RoomId) (st st' : State) (out : list Emit) (matched : bool) :
  findMatch userId now roomId st = (st', out, matched) ->
  (matched = true ->
   JsMap.get userId (connectedUsers st) <> None /\
   forall recipient ev, In (recipient, ev) out ->
     JsMap.get recipient (connectedUsers st) <> None) /\
  (JsMap.get userId (connectedUsers st) = None ->
   matched = false /\ out = [] /\
   In userId (waitingUsers st') /\
   activeRooms st' = activeRooms st).
Proof.
  intros H. split.
  - intros ->. split.
    + apply findMatch_true in H. destruct H as [w (_ & _ & Hu & _)]. exact Hu.
    + exact (proj1 (findMatch_recipients _ _ _ _ H)).
  - intros Hnone. destruct matched.
    + apply findMatch_true in H. destruct H as [w (_ & _ & Hu & _)].
      contradiction.
    + apply findMatch_false in H. destruct H as (-> & -> & _).
      repeat split. state_simpl. apply JsSetFacts.In_add. now right.
Qed.

Lemma findMatch_pairs_connected_only_witness :
  findMatch "Z" 20 "r1" lobby_state
  = (with_waitingUsers ["B"; "Z"] lobby_state, [], false) /\
  JsMap.get "Z" (connectedUsers lobby_state) = None /\
  In "Z" (waitingUsers (with_waitingUsers ["B"; "Z"] lobby_state)).
Proof.
  assert (F : findMatch "Z" 20 "r1" lobby_state
              = (with_waitingUsers ["B"; "Z"] lobby_state, [], false))
    by (vm_compute; reflexivity).
  assert (G : JsMap.get "Z" (connectedUsers lobby_state) = None)
    by (vm_compute; reflexivity).
  split; [exact F|]. split; [exact G|].
  exact (proj1 (proj2 (proj2
           (proj2 (@findMatch_pairs_connected_only _ _ _ _ _ _ _ F) G)))).
Defined.

(** ** find-match from the waiting set *)

Lemma with_waitingUsers_same (st : State) :
  with_waitingUsers (waitingUsers st) st = st.
Proof. now destruct st. Qed.

(** X9.  In every state the server can be in, a find-match of the socket
    that is waiting changes nothing at all and is answered with
    [waiting-for-match] again. *)
Theorem find_match_while_waiting (socket : Socket) (now : Z) (roomId : RoomId)
    (st : State) :
  reachable st ->
  JsMap.get (sock_id socket) (connectedUsers st) <> None ->
  In (sock_id socket) (waitingUsers st) ->
  on_find_match socket now roomId st
  = (st, [(sock_id socket, WaitingForMatch)]).
Proof.
  intros Hr Hc Hw.
  pose proof (reachable_waiting_single Hr) as Hlen.
  assert (E : waitingUsers st = [sock_id socket]).
  { destruct (waitingUsers st) as [| x [| y l]]; simpl in *;
      [contradiction | | lia].
    destruct Hw as [-> | []]. reflexivity. }
  assert (F : find_other (sock_id socket) (waitingUsers st) = None).
  { rewrite E. unfold find_other. simpl. now rewrite String.eqb_refl. }
  assert (A : JsSet.add (sock_id socket)
                (JsSet.delete (sock_id socket) (waitingUsers st))
              = waitingUsers st).
  { rewrite E. unfold JsSet.add, JsSet.delete, JsSet.has. simpl.
    now rewrite String.eqb_refl. }
  rewrite (on_find_match_reachable _ _ _ Hr Hc), F, A.
  now rewrite with_waitingUsers_same.
Qed.

Lemma find_match_while_waiting_witness :
  reachable lobby_state /\
  In "B" (waitingUsers lobby_state) /\
  on_find_match (mkSocket "B" 2) 30 "r1" lobby_state
  = (lobby_state, [("B", WaitingForMatch)]).
Proof.
  assert (Hw : In "B" (waitingUsers lobby_state)) by (vm_compute; auto).
  split; [exact lobby_reachable|]. split; [exact Hw|].
  apply (@find_match_while_waiting (mkSocket "B" 2) 30 "r1" lobby_state
           lobby_reachable); [vm_compute; discriminate | exact Hw].
Defined.

(** ** skip-user with a room that is not in the registry *)

(** X10.  A skip-user naming a room that is not in the registry removes
    no room: every room of the registry is still there afterwards (the id
    of a new room being fresh), and the sender is passed to [findMatch]
    all the same, so it ends in the waiting set or in one more room. *)
Theorem skip_user_unknown_room (socket : Socket) (roomId : RoomId) (now : Z)
    (newRoomId : RoomId) (st : State) :
  JsMap.get roomId (activeRooms st) = None ->
  fresh_room newRoomId st = true ->
  let result := on_skip_user socket roomId now newRoomId st in
  (forall k room, JsMap.get k (activeRooms st) = Some room ->
                  JsMap.get k (activeRooms (fst result)) = Some room) /\
  (In (sock_id socket) (waitingUsers (fst result)) \/
   exists other,
     JsMap.get newRoomId (activeRooms (fst result))
     = Some (mkRoom [sock_id socket; other] now)).
Proof.
  intros G Hfresh result. subst result.
  destruct (findMatch (sock_id socket) now newRoomId
              (skip_cleanup (sock_id socket) roomId st))
    as [[st3 out2] matched] eqn:F.
  rewrite (@on_skip_user_findMatch _ _ _ _ _ _ _ _ F). cbn [fst snd].
  split.
  - intros k room Hk.
    assert (Hne : k <> newRoomId).
    { intros ->. apply fresh_room_spec in Hfresh. destruct Hfresh as [Fk _].
      apply Fk. apply JsMapFacts.get_In in Hk.
      eapply JsMapFacts.In_keys; eassumption. }
    rewrite (@findMatch_rooms _ _ _ _ _ _ _ F) by assumption.
    rewrite skip_cleanup_rooms.
    rewrite JsMapFacts.delete_absent by assumption. exact Hk.
  - destruct matched.
    + right. apply findMatch_true in F.
      destruct F as [w (_ & _ & _ & _ & -> & _)].
      exists w. unfold paired. state_simpl. apply JsMapFacts.get_set_same.
    + left. apply findMatch_false in F. destruct F as (-> & _ & _).
      state_simpl. apply JsSetFacts.In_add. now right.
Qed.

Lemma skip_user_unknown_room_witness :
  JsMap.get "nowhere" (activeRooms scenario_state) = None /\
  fresh_room "r4" scenario_state = true /\
  JsMap.get "r1"
    (activeRooms (fst (on_skip_user (mkSocket "A" 1) "nowhere" 50 "r4"
                         scenario_state)))
  = Some (mkRoom ["A"; "B"] 20) /\
  JsMap.get "r4"
    (activeRooms (fst (on_skip_user (mkSocket "A" 1) "nowhere" 50 "r4"
                         scenario_state)))
  = Some (mkRoom ["A"; "C"] 50).
Proof.
  split; [reflexivity|]. split; [reflexivity|]. split; [| reflexivity].
  exact (proj1 (@skip_user_unknown_room (mkSocket "A" 1) "nowhere" 50 "r4"
                  scenario_state eq_refl eq_refl)
           "r1" (mkRoom ["A"; "B"] 20) eq_refl).
Defined.

(** * Properties of the refresh-token store *)

Lemma token_stored_In (token : string) (tbl : RefreshTokens) :
  token_stored token tbl = true <-> exists r, In r tbl /\ rt_token r = token.
Proof.
  unfold token_stored. rewrite existsb_exists. split.
  - intros [r [Hin E]]. apply String.eqb_eq in E. eauto.
  - intros [r [Hin E]]. exists r. split; [assumption|].
    now apply String.eqb_eq.
Qed.

(** A token is valid when some row holds it, unrevoked and unexpired. *)
Lemma isRefreshTokenValid_In (token : string) (now : Z) (tbl : RefreshTokens) :
  isRefreshTokenValid token now tbl = true <->
  exists r, In r tbl /\ rt_token r = token /\ rt_is_revoked r = false /\
            now < rt_expires_at r.
Proof.
  unfold isRefreshTokenValid.
  match goal with
  | |- context [filter ?f tbl] => set (keep := f)
  end.
  assert (Hkeep : forall r, keep r = true <->
                    rt_token r = token /\ rt_is_revoked r = false /\
                    now < rt_expires_at r).
  { intros r. unfold keep.
    rewrite !andb_true_iff, negb_true_iff, String.eqb_eq, Z.gtb_lt. tauto. }
  rewrite Z.ltb_lt. split.
  - intros Hlen. destruct (filter keep tbl) as [| r l] eqn:F; [simpl in Hlen; lia|].
    assert (Hin : In r (filter keep tbl)) by (rewrite F; now left).
    apply filter_In in Hin. destruct Hin as [Hin Hk]. apply Hkeep in Hk.
    exists r. tauto.
  - intros [r [Hin Hk]]. apply Hkeep in Hk.
    assert (Hf : In r (filter keep tbl)) by (apply filter_In; tauto).
    destruct (filter keep tbl); [contradiction | simpl; lia].
Qed.

(** Two tables with the same live rows for [token] agree on it. *)
Lemma isRefreshTokenValid_ext (token : string) (now : Z)
    (tbl tbl' : RefreshTokens) :
  ((exists r, In r tbl /\ rt_token r = token /\ rt_is_revoked r = false /\
              now < rt_expires_at r) <->
   (exists r, In r tbl' /\ rt_token r = token /\ rt_is_revoked r = false /\
              now < rt_expires_at r)) ->
  isRefreshTokenValid token now tbl = isRefreshTokenValid token now tbl'.
Proof.
  intros H. apply Bool.eq_iff_eq_true. now rewrite !isRefreshTokenValid_In.
Qed.

Lemma saveRefreshToken_Some (userId : UserId) (token : string) (now : Z)
    (tbl tbl' : RefreshTokens) :
  saveRefreshToken userId token now tbl = Some tbl' ->
  token_stored token tbl = false /\
  tbl' = tbl ++ [mkRefreshTokenRow userId token
                   (now + REFRESH_TOKEN_LIFETIME) false].
Proof.
  unfold saveRefreshToken. destruct (token_stored token tbl); [discriminate|].
  intros [= <-]. split; reflexivity.
Qed.

(** X12.  A refresh token that [saveRefreshToken] stored is valid at
    every time before seven days have passed and at no time from then on,
    and saving it changes the validity of no other token. *)
Theorem saved_token_valid_seven_days (userId : UserId) (token : string)
    (now : Z) (tbl tbl' : RefreshTokens) :
  saveRefreshToken userId token now tbl = Some tbl' ->
  (forall t, isRefreshTokenValid token t tbl'
             = (t <? now + 7 * 24 * 60 * 60 * 1000)) /\
  (forall other t, other <> token ->
     isRefreshTokenValid other t tbl' = isRefreshTokenValid other t tbl).
Proof.
  intros H. apply saveRefreshToken_Some in H. destruct H as [Hnew ->].
  assert (Hnone : forall r, In r tbl -> rt_token r <> token).
  { intros r Hin E.
    assert (token_stored token tbl = true)
      by (apply token_stored_In; eauto).
    congruence. }
  split.
  - intros t. apply Bool.eq_iff_eq_true.
    rewrite isRefreshTokenValid_In, Z.ltb_lt. split.
    + intros [r (Hin & E & _ & Hexp)]. apply in_app_iff in Hin.
      destruct Hin as [Hin | [<- | []]]; [now apply Hnone in Hin|].
      exact Hexp.
    + intros Hlt. eexists. split; [apply in_app_iff; right; now left|].
      repeat split. exact Hlt.
  - intros other t Hne. apply isRefreshTokenValid_ext. split.
    + intros [r (Hin & E & Hrest)]. apply in_app_iff in Hin.
      destruct Hin as [Hin | [<- | []]]; [eauto | simpl in E; congruence].
    + intros [r (Hin & Hrest)]. exists r. split; [| exact Hrest].
      apply in_app_iff. now left.
Qed.

Lemma saved_token_valid_seven_days_witness :
  saveRefreshToken 1 "t1" 0 [] = Some [mkRefreshTokenRow 1 "t1" 604800000 false]
  /\ isRefreshTokenValid "t1" 604799999
       [mkRefreshTokenRow 1 "t1" 604800000 false] = true
  /\ isRefreshTokenValid "t1" 604800000
       [mkRefreshTokenRow 1 "t1" 604800000 false] = false.
Proof.
  split; [reflexivity|].
  pose proof (proj1 (@saved_token_valid_seven_days 1 "t1" 0 [] _ eq_refl)) as H.
  split; [exact (H 604799999) | exact (H 604800000)].
Defined.

(** X13.  [cleanupExpiredTokens] deletes only rows that no longer count:
    at the time of the cleanup and at any later time, every token is
    valid after the cleanup exactly when it was valid before it. *)
Theorem cleanup_keeps_valid_tokens (token : string) (now later : Z)
    (tbl : RefreshTokens) :
  now <= later ->
  isRefreshTokenValid token later (cleanupExpiredTokens now tbl)
  = isRefreshTokenValid token later tbl.
Proof.
  intros Hle. apply isRefreshTokenValid_ext. unfold cleanupExpiredTokens. split.
  - intros [r (Hin & Hrest)]. apply filter_In in Hin. exists r. tauto.
  - intros [r (Hin & E & Hrev & Hexp)]. exists r.
    split; [| tauto]. apply filter_In. split; [assumption|].
    rewrite Hrev, orb_false_r, negb_true_iff. apply Z.ltb_ge. lia.
Qed.

Lemma cleanup_keeps_valid_tokens_witness :
  10 <= 20 /\
  isRefreshTokenValid "t1" 20
    (cleanupExpiredTokens 10
       [mkRefreshTokenRow 1 "t0" 5 false; mkRefreshTokenRow 1 "t1" 30 false])
  = isRefreshTokenValid "t1" 20
      [mkRefreshTokenRow 1 "t0" 5 false; mkRefreshTokenRow 1 "t1" 30 false].
Proof.
  assert (H : 10 <= 20) by lia.
  split; [exact H|].
  exact (@cleanup_keeps_valid_tokens "t1" 10 20 _ H).
Defined.

(** X14.  After [revokeRefreshToken] the token is valid at no time,
    whatever the table held, and the validity of every other token is
    what it was. *)
Theorem revoked_token_invalid (token : string) (tbl : RefreshTokens) :
  (forall t, isRefreshTokenValid token t (revokeRefreshToken token tbl) = false)
  /\
  (forall other t, other <> token ->
     isRefreshTokenValid other t (revokeRefreshToken token tbl)
     = isRefreshTokenValid other t tbl).
Proof.
  split.
  - intros t. apply Bool.not_true_is_false. rewrite isRefreshTokenValid_In.
    intros [r (Hin & E & Hrev & _)]. unfold revokeRefreshToken in Hin.
    apply in_map_iff in Hin. destruct Hin as [r0 [Er Hin]].
    destruct (String.eqb_spec (rt_token r0) token) as [E0 | E0]; subst r.
    + simpl in Hrev. discriminate.
    + contradiction.
  - intros other t Hne. apply isRefreshTokenValid_ext.
    unfold revokeRefreshToken. split.
    + intros [r (Hin & E & Hrest)]. apply in_map_iff in Hin.
      destruct Hin as [r0 [Er Hin]].
      destruct (String.eqb_spec (rt_token r0) token) as [E0 | E0]; subst r.
      * simpl in E. congruence.
      * exists r0. tauto.
    + intros [r (Hin & E & Hrest)]. exists r. split; [| tauto].
      apply in_map_iff. exists r. split; [| assumption].
      destruct (String.eqb_spec (rt_token r) token); [congruence | reflexivity].
Qed.

Lemma revoked_token_invalid_witness :
  "t2" <> "t1" /\
  isRefreshTokenValid "t2" 5
    (revokeRefreshToken "t1"
       [mkRefreshTokenRow 1 "t1" 30 false; mkRefreshTokenRow 2 "t2" 30 false])
  = isRefreshTokenValid "t2" 5
      [mkRefreshTokenRow 1 "t1" 30 false; mkRefreshTokenRow 2 "t2" 30 false].
Proof.
  assert (H : "t2" <> "t1") by discriminate.
  split; [exact H|].
  exact (proj2 (@revoked_token_invalid "t1" _) "t2" 5 H).
Defined.

(** X15.  After [revokeAllUserTokens] a token is valid exactly when a
    live row of another user holds it: every token of that user is
    invalid at every time, the tokens of the others are untouched. *)
Theorem revoke_all_user_tokens (userId : UserId) (token : string) (t : Z)
    (tbl : RefreshTokens) :
  isRefreshTokenValid token t (revokeAllUserTokens userId tbl) = true <->
  exists r, In r tbl /\ rt_token r = token /\ rt_is_revoked r = false /\
            t < rt_expires_at r /\ rt_user_id r <> userId.
Proof.
  rewrite isRefreshTokenValid_In. unfold revokeAllUserTokens. split.
  - intros [r (Hin & E & Hrev & Hexp)]. apply in_map_iff in Hin.
    destruct Hin as [r0 [Er Hin]].
    destruct (Z.eqb_spec (rt_user_id r0) userId) as [E0 | E0]; subst r.
    + simpl in Hrev. discriminate.
    + exists r0. tauto.
  - intros [r (Hin & E & Hrev & Hexp & Hne)]. exists r. split; [| tauto].
    apply in_map_iff. exists r. split; [| assumption].
    destruct (Z.eqb_spec (rt_user_id r) userId); [contradiction | reflexivity].
Qed.

(** * Properties of the authentication routes *)

Lemma revokeRefreshToken_row (token : string) (tbl : RefreshTokens)
    (r : RefreshTokenRow) :
  In r (revokeRefreshToken token tbl) -> rt_token r = token ->
  rt_is_revoked r = true.
Proof.
  unfold revokeRefreshToken. intros Hin E. apply in_map_iff in Hin.
  destruct Hin as [r0 [Er Hin]].
  destruct (String.eqb_spec (rt_token r0) token); subst r;
    [reflexivity | contradiction].
Qed.

Lemma revokeRefreshToken_stored (token other : string) (tbl : RefreshTokens) :
  token_stored other (revokeRefreshToken token tbl) = token_stored other tbl.
Proof.
  apply Bool.eq_iff_eq_true. rewrite !token_stored_In.
  unfold revokeRefreshToken. split.
  - intros [r [Hin E]]. apply in_map_iff in Hin. destruct Hin as [r0 [Er Hin]].
    exists r0. split; [assumption|].
    destruct (String.eqb (rt_token r0) token); subst r; exact E.
  - intros [r [Hin E]]. eexists. split.
    + apply in_map_iff. exists r. split; [reflexivity | assumption].
    + destruct (String.eqb (rt_token r) token); exact E.
Qed.

(** A token that was valid and has been revoked stays rejected after any
    other token is saved. *)
Lemma revoked_then_saved (token : string) (userId : UserId) (new : string)
    (now later : Z) (tbl tbl' : RefreshTokens) :
  token_stored token tbl = true ->
  saveRefreshToken userId new now (revokeRefreshToken token tbl) = Some tbl' ->
  isRefreshTokenValid token later tbl' = false.
Proof.
  intros Hstored Hsave. apply saveRefreshToken_Some in Hsave.
  destruct Hsave as [Hnew ->]. rewrite revokeRefreshToken_stored in Hnew.
  apply Bool.not_true_is_false. rewrite isRefreshTokenValid_In.
  intros [r (Hin & E & Hrev & _)]. apply in_app_iff in Hin.
  destruct Hin as [Hin | [<- | []]].
  - rewrite (revokeRefreshToken_row _ _ Hin E) in Hrev. discriminate.
  - simpl in E. subst new. congruence.
Qed.

Lemma valid_token_stored (token : string) (now : Z) (tbl : RefreshTokens) :
  isRefreshTokenValid token now tbl = true -> token_stored token tbl = true.
Proof.
  rewrite isRefreshTokenValid_In, token_stored_In.
  intros [r (Hin & E & _)]. eauto.
Qed.

Lemma filter_head_find (A : Type) (f : A -> bool) (l : list A) :
  find f l = match filter f l with [] => None | x :: _ => Some x end.
Proof.
  induction l as [| x l IH]; simpl; [reflexivity|].
  destruct (f x); [reflexivity | exact IH].
Qed.

Section AuthRoutes.

Context `{Crypto}.

(** What a successful refresh went through. *)
Lemma refresh_ok (tok : string) (now : Z) (db db' : AuthDb) (tokens : Tokens) :
  refresh (Some tok) now db = ((200, TokensBody tokens), db') ->
  truthy tok = true /\
  isRefreshTokenValid tok now (db_refresh_tokens db) = true /\
  db_users db' = db_users db /\
  exists userId,
    saveRefreshToken userId (refreshToken tokens) now
      (revokeRefreshToken tok (db_refresh_tokens db))
    = Some (db_refresh_tokens db').
Proof.
  unfold refresh. destruct (truthy tok); simpl; [| discriminate].
  destruct (verifyRefreshToken tok now) as [userId |]; [| discriminate].
  destruct (isRefreshTokenValid tok now (db_refresh_tokens db)); simpl;
    [| discriminate].
  destruct (filter _ (db_users db)) as [| user rest]; [discriminate|].
  destruct (user_is_active user); simpl; [| discriminate].
  unfold generateTokenPair. cbn [db_refresh_tokens with_refresh_tokens].
  destruct (saveRefreshToken (user_id user) _ now _) as [tbl |] eqn:S;
    [| discriminate].
  intros [= <- <-]. repeat split. exists (user_id user). exact S.
Qed.

(** X16.  A refresh token works once: after a refresh answered 200, a
    refresh with the same token is answered 401 at any later call and
    changes nothing. *)
Theorem refresh_token_single_use (tok : string) (now later : Z)
    (db db' : AuthDb) (tokens : Tokens) :
  refresh (Some tok) now db = ((200, TokensBody tokens), db') ->
  exists error,
    refresh (Some tok) later db' = ((401, ErrorBody error), db').
Proof.
  intros Hok. apply refresh_ok in Hok.
  destruct Hok as (Ht & Hv & _ & userId & Hsave).
  assert (Hinv : isRefreshTokenValid tok later (db_refresh_tokens db') = false).
  { eapply revoked_then_saved; [| exact Hsave].
    eapply valid_token_stored; eassumption. }
  unfold refresh. rewrite Ht. simpl.
  destruct (verifyRefreshToken tok later); [| eauto].
  rewrite Hinv. simpl. eauto.
Qed.

(** X17.  Registering with an email that a row of [users] has, or with a
    username that a row has, is answered 409 and changes nothing: no user
    is inserted and no token is stored. *)
Theorem register_existing_user (email password : string)
    (username : option string) (salt : string) (now : Z) (db : AuthDb)
    (u : UserRow) :
  In u (db_users db) ->
  user_email u = email \/
  (exists name, username = Some name /\ user_username u = Some name) ->
  register email password username salt now db
  = ((409, ErrorBody "User with this email or username already exists"), db).
Proof.
  intros Hin Hmatch. unfold register.
  match goal with
  | |- context [filter ?f (db_users db)] =>
      assert (Hf : In u (filter f (db_users db)))
  end.
  { apply filter_In. split; [assumption|]. apply orb_true_iff.
    destruct Hmatch as [E | [name [-> E]]].
    - left. now apply String.eqb_eq.
    - right. unfold username_is. rewrite E. apply String.eqb_refl. }
  destruct (filter _ (db_users db)); [contradiction | reflexivity].
Qed.

(** X18.  A registration answered 201 can log in: a later login with the
    same email and password is answered 200, provided the hash compares
    with its password and the refresh token signed for the login is not
    one already stored. *)
Theorem register_then_login (email password : string)
    (username : option string) (salt : string) (now later : Z)
    (db db' : AuthDb) (body : Body) :
  register email password username salt now db = ((201, body), db') ->
  comparePassword password (hashPassword salt password) = true ->
  token_stored (generateRefreshToken (db_next_user_id db) email later)
    (db_refresh_tokens db') = false ->
  exists tokens db'',
    login email password later db'
    = ((200, UserBody "Login successful" (db_next_user_id db) email username
               tokens), db'').
Proof.
  unfold register.
  destruct (filter _ (db_users db)) as [| x l] eqn:F; [| discriminate].
  unfold generateTokenPair. cbn [db_refresh_tokens user_id user_email].
  destruct (saveRefreshToken (db_next_user_id db) _ now _) as [tbl |];
    [| discriminate].
  intros [= <- <-] Hcmp Hfresh.
  unfold login, with_refresh_tokens in *.
  cbn [db_users db_next_user_id db_refresh_tokens] in *.
  rewrite filter_app. cbn [filter user_email].
  rewrite String.eqb_refl.
  assert (E : filter (fun u => String.eqb (user_email u) email) (db_users db)
              = []).
  { destruct (filter (fun u => String.eqb (user_email u) email) (db_users db))
      as [| y l'] eqn:F'; [reflexivity|].
    assert (Hy : In y (filter (fun u => String.eqb (user_email u) email)
                         (db_users db))) by (rewrite F'; now left).
    apply filter_In in Hy. destruct Hy as [Hy Ey].
    assert (Hf : In y (filter
                         (fun u => String.eqb (user_email u) email
                                   || username_is username u) (db_users db))).
    { apply filter_In. split; [assumption|]. now rewrite Ey. }
    rewrite F in Hf. contradiction. }
  rewrite E. cbn [app user_is_active user_password_hash negb].
  rewrite Hcmp. cbn [negb user_id user_email user_username].
  unfold generateTokenPair, saveRefreshToken.
  cbn [db_refresh_tokens]. rewrite Hfresh. eauto.
Qed.

(** X19.  A login with an email no user has, or with a password that
    does not compare with the hash of the active user found, is answered
    with the same 401 body, and the database is left as it was (no
    [last_login], no token). *)
Theorem login_bad_credentials (email password : string) (now : Z)
    (db : AuthDb) :
  match find (fun u => String.eqb (user_email u) email) (db_users db) with
  | None => True
  | Some user =>
      user_is_active user = true /\
      comparePassword password (user_password_hash user) = false
  end ->
  login email password now db
  = ((401, ErrorBody "Invalid email or password"), db).
Proof.
  unfold login. rewrite filter_head_find.
  destruct (filter _ (db_users db)) as [| user rest]; [reflexivity|].
  intros [Ha Hc]. now rewrite Ha, Hc.
Qed.

(** X20.  A login with the right password fails with 500 when the
    refresh token signed for it is already stored (the [UNIQUE] constraint
    refuses the insert), and by then [last_login] has been written. *)
Theorem login_token_collision (email password : string) (now : Z)
    (db : AuthDb) (user : UserRow) :
  find (fun u => String.eqb (user_email u) email) (db_users db) = Some user ->
  user_is_active user = true ->
  comparePassword password (user_password_hash user) = true ->
  token_stored (generateRefreshToken (user_id user) (user_email user) now)
    (db_refresh_tokens db) = true ->
  login email password now db
  = ((500, ErrorBody "Internal server error"),
     mkAuthDb (update_last_login (user_id user) now (db_users db))
       (db_next_user_id db) (db_refresh_tokens db)).
Proof.
  unfold login. rewrite filter_head_find.
  destruct (filter _ (db_users db)) as [| user' rest]; [discriminate|].
  intros [= ->] Ha Hc Hs. rewrite Ha, Hc. cbn [negb].
  unfold generateTokenPair, saveRefreshToken. cbn [db_refresh_tokens].
  now rewrite Hs.
Qed.

(** X21.  After a logout that was sent a refresh token, a refresh with
    that token is answered 401 at any time and changes nothing, whoever
    owned the token. *)
Theorem logout_then_refresh (tok : string) (later : Z) (db : AuthDb) :
  truthy tok = true ->
  exists error,
    refresh (Some tok) later (snd (logout (Some tok) db))
    = ((401, ErrorBody error), snd (logout (Some tok) db)).
Proof.
  intros Ht. unfold logout. rewrite Ht. cbn [snd].
  unfold refresh. rewrite Ht. cbn [negb].
  destruct (verifyRefreshToken tok later); [| eauto].
  cbn [db_refresh_tokens with_refresh_tokens].
  assert (E : isRefreshTokenValid tok later
                (revokeRefreshToken tok (db_refresh_tokens db)) = false).
  { apply Bool.not_true_is_false. rewrite isRefreshTokenValid_In.
    intros [r (Hin & E & Hrev & _)].
    rewrite (revokeRefreshToken_row _ _ Hin E) in Hrev. discriminate. }
  rewrite E. cbn [negb]. eauto.
Qed.

End AuthRoutes.

Lemma refresh_token_single_use_witness :
  @refresh toy_crypto (Some "refresh:a@b.c:0") 1500 auth_registered
  = ((200, TokensBody (mkTokens "access:a@b.c" "refresh:a@b.c:1")),
     auth_refreshed) /\
  exists error,
    @refresh toy_crypto (Some "refresh:a@b.c:0") 2000 auth_refreshed
    = ((401, ErrorBody error), auth_refreshed).
Proof.
  assert (Hok : @refresh toy_crypto (Some "refresh:a@b.c:0") 1500
                  auth_registered
                = ((200, TokensBody (mkTokens "access:a@b.c" "refresh:a@b.c:1")),
                   auth_refreshed))
    by (vm_compute; reflexivity).
  split; [exact Hok|].
  exact (@refresh_token_single_use toy_crypto _ 1500 2000 _ _ _ Hok).
Defined.

Lemma register_existing_user_witness :
  In (mkUserRow 1 "a@b.c" "sSecret1!" None 0 0 None true)
    (db_users auth_registered) /\
  @register toy_crypto "a@b.c" "Other2!x" (Some "bob") "t" 100 auth_registered
  = ((409, ErrorBody "User with this email or username already exists"),
     auth_registered).
Proof.
  assert (Hin : In (mkUserRow 1 "a@b.c" "sSecret1!" None 0 0 None true)
                  (db_users auth_registered)) by (vm_compute; auto).
  split; [exact Hin|].
  exact (@register_existing_user toy_crypto "a@b.c" "Other2!x" (Some "bob")
           "t" 100 auth_registered _ Hin (or_introl eq_refl)).
Defined.

Lemma register_then_login_witness :
  @register toy_crypto "a@b.c" "Secret1!" None "s" 0 auth_empty
  = ((201, UserBody "User registered successfully" 1 "a@b.c" None
             (mkTokens "access:a@b.c" "refresh:a@b.c:0")), auth_registered) /\
  exists tokens db'',
    @login toy_crypto "a@b.c" "Secret1!" 1500 auth_registered
    = ((200, UserBody "Login successful" 1 "a@b.c" None tokens), db'').
Proof.
  assert (Hreg : @register toy_crypto "a@b.c" "Secret1!" None "s" 0 auth_empty
                 = ((201, UserBody "User registered successfully" 1 "a@b.c"
                            None (mkTokens "access:a@b.c" "refresh:a@b.c:0")),
                    auth_registered))
    by (vm_compute; reflexivity).
  split; [exact Hreg|].
  exact (@register_then_login toy_crypto "a@b.c" "Secret1!" None "s" 0 1500
           auth_empty auth_registered _ Hreg eq_refl eq_refl).
Defined.

Lemma login_bad_credentials_witness :
  @login toy_crypto "a@b.c" "wrong" 1500 auth_registered
  = ((401, ErrorBody "Invalid email or password"), auth_registered) /\
  @login toy_crypto "x@y.z" "Secret1!" 1500 auth_registered
  = ((401, ErrorBody "Invalid email or password"), auth_registered).
Proof.
  split.
  - apply (@login_bad_credentials toy_crypto "a@b.c" "wrong" 1500
             auth_registered).
    vm_compute. split; reflexivity.
  - apply (@login_bad_credentials toy_crypto "x@y.z" "Secret1!" 1500
             auth_registered).
    vm_compute. exact I.
Defined.

Lemma login_token_collision_witness :
  fst (@login toy_crypto "a@b.c" "Secret1!" 500 auth_registered)
  = (500, ErrorBody "Internal server error") /\
  map user_last_login
    (db_users (snd (@login toy_crypto "a@b.c" "Secret1!" 500 auth_registered)))
  = [Some 500].
Proof.
  pose proof (@login_token_collision toy_crypto "a@b.c" "Secret1!" 500
                auth_registered
                (mkUserRow 1 "a@b.c" "sSecret1!" None 0 0 None true)
                eq_refl eq_refl eq_refl eq_refl) as E.
  rewrite E. split; reflexivity.
Defined.

Lemma logout_then_refresh_witness :
  truthy "refresh:a@b.c:0" = true /\
  exists error,
    @refresh toy_crypto (Some "refresh:a@b.c:0") 1500
      (snd (logout (Some "refresh:a@b.c:0") auth_registered))
    = ((401, ErrorBody error),
       snd (logout (Some "refresh:a@b.c:0") auth_registered)).
Proof.
  split; [reflexivity|].
  exact (@logout_then_refresh toy_crypto "refresh:a@b.c:0" 1500
           auth_registered eq_refl).
Defined.

(** * The shape of the registry *)

(** X22.  In every state a run of [step]s leads to, every room of the
    registry lists exactly two sockets, distinct from each other, and no
    socket other than these two is joined to the Socket.IO room of that
    name. *)
Theorem registry_rooms_of_two (st : State) (roomId : RoomId) (room : Room) :
  reachable st ->
  JsMap.get roomId (activeRooms st) = Some room ->
  exists a b,
    users room = [a; b] /\ a <> b /\
    forall s, SocketIO.joined s roomId (adapter st) = true -> s = a \/ s = b.
Proof.
  intros Hr G. pose proof (reachable_invariant Hr) as I.
  apply JsMapFacts.get_In in G.
  destruct (inv_room_pair I _ _ G) as [a [b [E Hab]]].
  exists a, b. split; [exact E|]. split; [exact Hab|].
  intros s Hj. apply SocketIOFacts.joined_In in Hj.
  pose proof (inv_joined_member I _ _ _ G Hj) as Hm.
  rewrite E in Hm. simpl in Hm. intuition.
Qed.

Lemma registry_rooms_of_two_witness :
  reachable scenario_state /\
  JsMap.get "r1" (activeRooms scenario_state) = Some (mkRoom ["A"; "B"] 20) /\
  exists a b,
    ["A"; "B"] = [a; b] /\ a <> b /\
    forall s, SocketIO.joined s "r1" (adapter scenario_state) = true ->
              s = a \/ s = b.
Proof.
  split; [exact scenario_reachable|]. split; [reflexivity|].
  exact (@registry_rooms_of_two scenario_state "r1" (mkRoom ["A"; "B"] 20)
           scenario_reachable eq_refl).
Defined.

(** X23.  After a logout-all of a user, a refresh with any token whose
    rows all belong to that user is answered 401 at any time and changes
    nothing. *)
Theorem logout_all_then_refresh (C : Crypto) (userId : UserId) (tok : string)
    (later : Z) (db : AuthDb) :
  (forall r, In r (db_refresh_tokens db) -> rt_token r = tok ->
             rt_user_id r = userId) ->
  exists error,
    refresh (Some tok) later (snd (logout_all userId db))
    = ((401, ErrorBody error), snd (logout_all userId db)).
Proof.
  intros Hown. unfold logout_all. cbn [snd].
  unfold refresh. destruct (truthy tok); cbn [negb]; [| eauto].
  destruct (verifyRefreshToken tok later); [| eauto].
  cbn [db_refresh_tokens with_refresh_tokens].
  assert (E : isRefreshTokenValid tok later
                (revokeAllUserTokens userId (db_refresh_tokens db)) = false).
  { apply Bool.not_true_is_false. rewrite isRefreshTokenValid_In.
    intros [r (Hin & E & Hrev & _)]. unfold revokeAllUserTokens in Hin.
    apply in_map_iff in Hin. destruct Hin as [r0 [Er Hin]].
    destruct (Z.eqb_spec (rt_user_id r0) userId) as [E0 | E0]; subst r.
    - simpl in Hrev. discriminate.
    - apply E0. now apply Hown. }
  rewrite E. cbn [negb]. eauto.
Qed.

Lemma logout_all_then_refresh_witness :
  (forall r, In r (db_refresh_tokens auth_registered) ->
             rt_token r = "refresh:a@b.c:0" -> rt_user_id r = 1) /\
  exists error,
    @refresh toy_crypto (Some "refresh:a@b.c:0") 1500
      (snd (logout_all 1 auth_registered))
    = ((401, ErrorBody error), snd (logout_all 1 auth_registered)).
Proof.
  assert (Hown : forall r, In r (db_refresh_tokens auth_registered) ->
                   rt_token r = "refresh:a@b.c:0" -> rt_user_id r = 1).
  { intros r Hin _. vm_compute in Hin. destruct Hin as [<- | []]. reflexivity. }
  split; [exact Hown|].
  exact (@logout_all_then_refresh toy_crypto 1 "refresh:a@b.c:0" 1500
           auth_registered Hown).
Defined.
